(** * ESIM: Enhanced LSTM for Natural Language Inference

    A shallow embedding of [scripts/esim/esim.py].  The Python class [ESIM]
    is a Gluon [HybridBlock]: its constructor builds the child layers, and
    [hybrid_forward] is written against an operator module [F] (the
    imperative [mxnet.ndarray] or the symbolic [mxnet.symbol] module).

    The development follows the same cut:

    - [Layer], [Block], [ESIM] and [__init__] model construction;
    - [Backend] is the interface that [hybrid_forward] is written against:
      the operators of [F] that the source calls, and the call of a child
      block;
    - [_soft_attention_align], [_submul], [_pooling] and [hybrid_forward]
      are translated once, for every backend;
    - [Shape] is the backend of shapes (a tensor is its shape, an operator
      of [mxnet.ndarray] is its shape rule);
    - [Val] is the backend of values (a tensor is a nested list of exact
      rationals; rounding of machine floats is outside the model).

    The operators and layers of MXNet are not part of the repository: they
    are modelled from their documented behaviour, restricted to the ranks
    and arguments at which the source calls them. *)

From Stdlib Require Import ZArith QArith Qcanon List Bool Arith Lia.
From Stdlib Require Import Lqa Permutation.
Import ListNotations.

Set Implicit Arguments.

(** ** Results of fallible calls *)

(** The error taxonomy of the model: a Python exception raised by the
    framework aborts the forward call and reaches the caller.
    [NotModelled] marks a call of an operator at a rank or with an argument
    at which the source never calls it. *)
Inductive error : Type :=
| ShapeMismatch
| IndexOutOfRange
| ConfigurationError
| TypeMismatch
| NotModelled.

Inductive result (A : Type) : Type :=
| Ok (a : A)
| Err (e : error).

Arguments Ok {A} a.
Arguments Err {A} e.

Definition bind {A B : Type} (r : result A) (k : A -> result B) : result B :=
  match r with
  | Ok a => k a
  | Err e => Err e
  end.

Declare Scope result_scope.
Delimit Scope result_scope with result.
Notation "x <- c ;; k" := (bind c (fun x => k))
  (at level 61, c at next level, right associativity) : result_scope.
Local Open Scope result_scope.


(** ** Layers and blocks *)

Inductive Activation : Type := relu | sigmoid | tanh | softrelu | softsign.

(** The hyper-parameters a Gluon layer records when it is constructed. *)
Inductive Layer : Type :=
| EmbeddingL (input_dim output_dim : Z)
| BatchNormL (axis : Z)
| LSTML (hidden_size : Z) (bidirectional : bool)
| DropoutL (rate : Q)
| DenseL (units : Z) (activation : option Activation) (flatten : bool)
| ELUL
| GlobalAvgPool1DL
| GlobalMaxPool1DL.

(** A block is a layer object: [uid] is the identity of the Python object
    (in Gluon, the prefix under which the block's parameters are named), so
    that two layers built with equal hyper-parameters are still two
    different blocks with parameters of their own. *)
Record Block : Type := mkBlock { uid : nat; layer : Layer }.

(** [nn.HybridSequential]: the children, called in the order of [add]. *)
Record HybridSequential : Type := mkSeq { seq_uid : nat; children : list Block }.

(** Construction: a constructor call either raises or returns a new
    object; the counter is the supply of object identities. *)
Definition ctor (A : Type) : Type := nat -> result (A * nat).

Definition ctor_ret {A : Type} (a : A) : ctor A := fun n => Ok (a, n).

Definition ctor_bind {A B : Type} (c : ctor A) (k : A -> ctor B) : ctor B :=
  fun n => match c n with
           | Ok (a, n') => k a n'
           | Err e => Err e
           end.

Declare Scope ctor_scope.
Delimit Scope ctor_scope with ctor.
Notation "x <- c ;; k" := (ctor_bind c (fun x => k))
  (at level 61, c at next level, right associativity) : ctor_scope.

Definition new_block (l : Layer) : ctor Block :=
  fun n => Ok (mkBlock n l, S n).

(** The constructors of [mxnet.gluon.nn]: each one records its arguments;
    the shapes of the parameters are deferred until the first call. *)
Module nn.
Definition Embedding (input_dim output_dim : Z) : ctor Block :=
  new_block (EmbeddingL input_dim output_dim).
Definition BatchNorm (axis : Z) : ctor Block :=
  new_block (BatchNormL axis).
Definition Dropout (rate : Q) : ctor Block :=
  new_block (DropoutL rate).
Definition Dense (units : Z) (activation : option Activation) (flatten : bool)
  : ctor Block :=
  new_block (DenseL units activation flatten).
Definition ELU : ctor Block := new_block ELUL.
Definition GlobalAvgPool1D : ctor Block := new_block GlobalAvgPool1DL.
Definition GlobalMaxPool1D : ctor Block := new_block GlobalMaxPool1DL.
(** [nn.HybridSequential()]: a container without children. *)
Definition HybridSequential : ctor HybridSequential :=
  fun n => Ok (mkSeq n [], S n).
End nn.

(** [HybridSequential.add(b1, ..., bn)]: the blocks are appended to the
    children.  The container is reached through one name only, so the
    update is a new value of that name. *)
Definition add_children (s : HybridSequential) (bs : list Block) : HybridSequential :=
  mkSeq (seq_uid s) (children s ++ bs).

(** The constructors of [mxnet.gluon.rnn]. *)
Module rnn.
Definition LSTM (hidden_size : Z) (bidirectional : bool) : ctor Block :=
  new_block (LSTML hidden_size bidirectional).
End rnn.

(** ** The model object *)

Record ESIM : Type := mkESIM {
  embedding_encoder : Block;
  batch_norm : Block;
  lstm_encoder1 : Block;
  projection : HybridSequential;
  lstm_encoder2 : Block;
  fc_encoder : HybridSequential;
  avg_pool : Block;
  max_pool : Block
}.

Local Open Scope Z_scope.

(** [ESIM.__init__]: every layer is constructed in the order of the
    source, a container before the children that are added to it. *)
Definition __init__ (vocab_size nword_dims nhidden_units ndense_units nclasses : Z)
    (dropout : Q) : ctor ESIM :=
  (embedding_encoder <- nn.Embedding vocab_size nword_dims ;;
   batch_norm <- nn.BatchNorm (-1) ;;
   lstm_encoder1 <- rnn.LSTM nhidden_units true ;;
   projection <- nn.HybridSequential ;;
   p1 <- nn.BatchNorm (-1) ;;
   p2 <- nn.Dropout dropout ;;
   p3 <- nn.Dense nhidden_units (Some relu) false ;;
   lstm_encoder2 <- rnn.LSTM nhidden_units true ;;
   fc_encoder <- nn.HybridSequential ;;
   f1 <- nn.BatchNorm (-1) ;;
   f2 <- nn.Dropout dropout ;;
   f3 <- nn.Dense ndense_units None true ;;
   f4 <- nn.ELU ;;
   f5 <- nn.BatchNorm (-1) ;;
   f6 <- nn.Dropout dropout ;;
   f7 <- nn.Dense nclasses None true ;;
   avg_pool <- nn.GlobalAvgPool1D ;;
   max_pool <- nn.GlobalMaxPool1D ;;
   ctor_ret (mkESIM embedding_encoder batch_norm lstm_encoder1
                    (add_children projection [p1; p2; p3])
                    lstm_encoder2
                    (add_children fc_encoder [f1; f2; f3; f4; f5; f6; f7])
                    avg_pool max_pool))%ctor.

(** Construction of a model as the caller sees it: the model, or the
    exception the constructor raised. *)
Definition new_ESIM (vocab_size nword_dims nhidden_units ndense_units nclasses : Z)
    (dropout : Q) : result ESIM :=
  match __init__ vocab_size nword_dims nhidden_units ndense_units nclasses dropout
                 0%nat with
  | Ok (m, _) => Ok m
  | Err e => Err e
  end.

(** The model [__init__] returns, for every argument values: the blocks
    in the order of their creation. *)
Definition built (vocab_size nword_dims nhidden_units ndense_units nclasses : Z)
    (dropout : Q) : ESIM :=
  mkESIM (mkBlock 0 (EmbeddingL vocab_size nword_dims))
         (mkBlock 1 (BatchNormL (-1)))
         (mkBlock 2 (LSTML nhidden_units true))
         (mkSeq 3 [mkBlock 4 (BatchNormL (-1)); mkBlock 5 (DropoutL dropout);
                   mkBlock 6 (DenseL nhidden_units (Some relu) false)])
         (mkBlock 7 (LSTML nhidden_units true))
         (mkSeq 8 [mkBlock 9 (BatchNormL (-1)); mkBlock 10 (DropoutL dropout);
                   mkBlock 11 (DenseL ndense_units None true); mkBlock 12 ELUL;
                   mkBlock 13 (BatchNormL (-1)); mkBlock 14 (DropoutL dropout);
                   mkBlock 15 (DenseL nclasses None true)])
         (mkBlock 16 GlobalAvgPool1DL)
         (mkBlock 17 GlobalMaxPool1DL).

(** The configurations the specification calls valid: positive sizes and
    a dropout probability in [[0, 1)]. *)
Definition valid_config (vocab_size nword_dims nhidden_units ndense_units nclasses : Z)
    (dropout : Q) : bool :=
  (0 <? vocab_size) && (0 <? nword_dims) && (0 <? nhidden_units)
  && (0 <? ndense_units) && (0 <? nclasses)
  && Qle_bool 0 dropout && negb (Qle_bool 1 dropout).

(** ** The interface of a backend *)

(** What [hybrid_forward] needs from the framework: the operators of [F] it
    calls, with the keyword arguments it passes, and the call of a child
    block on a tensor.  The operators are those of [mxnet.ndarray]: [+],
    [multiply] and [subtract] broadcast their arguments. *)
Record Backend (T : Type) : Type := mkBackend {
  batch_dot : T -> T -> bool -> bool -> result T;  (* lhs rhs transpose_a transpose_b *)
  softmax : T -> Z -> result T;                    (* data axis *)
  expand_dims : T -> Z -> result T;                (* data axis *)
  add : T -> T -> result T;                        (* the operator + *)
  multiply : T -> T -> result T;
  subtract : T -> T -> result T;
  concat : list T -> Z -> result T;                (* data dim *)
  squeeze : T -> Z -> result T;                    (* data axis *)
  transpose : T -> list nat -> result T;           (* data axes *)
  call : Block -> T -> result T                    (* block(x) *)
}.

Section Forward.
Variable T : Type.
Variable F : Backend T.

(** [HybridSequential.hybrid_forward]: the children in order. *)
Fixpoint call_children (bs : list Block) (x : T) : result T :=
  match bs with
  | [] => Ok x
  | b :: bs' => y <- call F b x ;; call_children bs' y
  end.

Definition call_seq (s : HybridSequential) (x : T) : result T :=
  call_children (children s) x.

Definition _soft_attention_align (x1 x2 mask1 mask2 : T) : result (T * T) :=
  attention <- batch_dot F x1 x2 false true ;;
  m2 <- expand_dims F mask2 1 ;;
  a1 <- add F attention m2 ;;
  weight1 <- softmax F a1 (-1) ;;
  x1_align <- batch_dot F weight1 x2 false false ;;
  m1 <- expand_dims F mask1 2 ;;
  a2 <- add F attention m1 ;;
  weight2 <- softmax F a2 1 ;;
  x2_align <- batch_dot F weight2 x1 true false ;;
  Ok (x1_align, x2_align).

(** The statements of [_soft_attention_align] that compute [weight1], on
    their own. *)
Definition weight1_of (x1 x2 mask2 : T) : result T :=
  attention <- batch_dot F x1 x2 false true ;;
  m2 <- expand_dims F mask2 1 ;;
  a1 <- add F attention m2 ;;
  softmax F a1 (-1).

(** The statements of [_soft_attention_align] that compute [weight2], on
    their own. *)
Definition weight2_of (x1 x2 mask1 : T) : result T :=
  attention <- batch_dot F x1 x2 false true ;;
  m1 <- expand_dims F mask1 2 ;;
  a2 <- add F attention m1 ;;
  softmax F a2 1.

Definition _submul (x1 x2 : T) : result T :=
  mul <- multiply F x1 x2 ;;
  sub <- subtract F x1 x2 ;;
  concat F [mul; sub] (-1).

Definition _pooling (self : ESIM) (x : T) : result T :=
  a <- call F (avg_pool self) x ;;
  p1 <- squeeze F a (-1) ;;
  m <- call F (max_pool self) x ;;
  p2 <- squeeze F m (-1) ;;
  concat F [p1; p2] (-1).

(** The local variables of [hybrid_forward] when it returns.  The source
    assigns [x1_compose] and [x2_compose] twice; the second values are
    [x1_compose_t] and [x2_compose_t] here. *)
Record Locals : Type := mkLocals {
  x1_embed : T; x2_embed : T;
  x1_lstm_encode : T; x2_lstm_encode : T;
  x1_algin : T; x2_algin : T;
  x1_combined : T; x2_combined : T;
  x1_compose : T; x2_compose : T;
  x1_compose_t : T; x2_compose_t : T;
  x1_agg : T; x2_agg : T;
  output : T
}.

(** The body of [hybrid_forward], keeping every local. *)
Definition hybrid_forward_locals (self : ESIM) (x1 x2 mask1 mask2 : T)
  : result Locals :=
  e1 <- call F (embedding_encoder self) x1 ;;
  x1_embed <- call F (batch_norm self) e1 ;;
  e2 <- call F (embedding_encoder self) x2 ;;
  x2_embed <- call F (batch_norm self) e2 ;;
  x1_lstm_encode <- call F (lstm_encoder1 self) x1_embed ;;
  x2_lstm_encode <- call F (lstm_encoder1 self) x2_embed ;;
  al <- _soft_attention_align x1_lstm_encode x2_lstm_encode mask1 mask2 ;;
  s1 <- _submul x1_lstm_encode (fst al) ;;
  x1_combined <- concat F [x1_lstm_encode; fst al; s1] (-1) ;;
  s2 <- _submul x2_lstm_encode (snd al) ;;
  x2_combined <- concat F [x2_lstm_encode; snd al; s2] (-1) ;;
  q1 <- call_seq (projection self) x1_combined ;;
  x1_compose <- call F (lstm_encoder2 self) q1 ;;
  q2 <- call_seq (projection self) x2_combined ;;
  x2_compose <- call F (lstm_encoder2 self) q2 ;;
  x1_compose_t <- transpose F x1_compose [0; 2; 1]%nat ;;
  x2_compose_t <- transpose F x2_compose [0; 2; 1]%nat ;;
  x1_agg <- _pooling self x1_compose_t ;;
  x2_agg <- _pooling self x2_compose_t ;;
  c <- concat F [x1_agg; x2_agg] (-1) ;;
  output <- call_seq (fc_encoder self) c ;;
  Ok (mkLocals x1_embed x2_embed x1_lstm_encode x2_lstm_encode
               (fst al) (snd al) x1_combined x2_combined
               x1_compose x2_compose x1_compose_t x2_compose_t
               x1_agg x2_agg output).

Definition hybrid_forward (self : ESIM) (x1 x2 mask1 mask2 : T) : result T :=
  s <- hybrid_forward_locals self x1 x2 mask1 mask2 ;;
  Ok (output s).

End Forward.

(** What a successful forward call computed, one field per statement of
    [hybrid_forward]. *)
Record forward_run (T : Type) (F : Backend T) (self : ESIM)
    (x1 x2 mask1 mask2 : T) (s : Locals T) : Prop := mkRun {
  run_embed1 : exists e, call F (embedding_encoder self) x1 = Ok e
                         /\ call F (batch_norm self) e = Ok (x1_embed s);
  run_embed2 : exists e, call F (embedding_encoder self) x2 = Ok e
                         /\ call F (batch_norm self) e = Ok (x2_embed s);
  run_encode1 : call F (lstm_encoder1 self) (x1_embed s) = Ok (x1_lstm_encode s);
  run_encode2 : call F (lstm_encoder1 self) (x2_embed s) = Ok (x2_lstm_encode s);
  run_align : _soft_attention_align F (x1_lstm_encode s) (x2_lstm_encode s)
                                    mask1 mask2
              = Ok (x1_algin s, x2_algin s);
  run_combine1 : exists m, _submul F (x1_lstm_encode s) (x1_algin s) = Ok m
                   /\ concat F [x1_lstm_encode s; x1_algin s; m] (-1)
                      = Ok (x1_combined s);
  run_combine2 : exists m, _submul F (x2_lstm_encode s) (x2_algin s) = Ok m
                   /\ concat F [x2_lstm_encode s; x2_algin s; m] (-1)
                      = Ok (x2_combined s);
  run_compose1 : exists p, call_seq F (projection self) (x1_combined s) = Ok p
                   /\ call F (lstm_encoder2 self) p = Ok (x1_compose s);
  run_compose2 : exists p, call_seq F (projection self) (x2_combined s) = Ok p
                   /\ call F (lstm_encoder2 self) p = Ok (x2_compose s);
  run_transpose1 : transpose F (x1_compose s) [0; 2; 1]%nat = Ok (x1_compose_t s);
  run_transpose2 : transpose F (x2_compose s) [0; 2; 1]%nat = Ok (x2_compose_t s);
  run_pool1 : _pooling F self (x1_compose_t s) = Ok (x1_agg s);
  run_pool2 : _pooling F self (x2_compose_t s) = Ok (x2_agg s);
  run_classify : exists c, concat F [x1_agg s; x2_agg s] (-1) = Ok c
                   /\ call_seq F (fc_encoder self) c = Ok (output s)
}.

(** ** The backend of shapes *)

(** A tensor is its shape.  Each operator is MXNet's shape inference for
    it: the shape of the result, or [ShapeMismatch] where the operator
    rejects the shapes of its arguments. *)
Module Shape.

Abbreviation tensor := (list nat).

(** A Python axis: negative values count from the last axis. *)
Definition norm_axis (axis : Z) (rank : nat) : option nat :=
  let a := if axis <? 0 then axis + Z.of_nat rank else axis in
  if (0 <=? a) && (a <? Z.of_nat rank) then Some (Z.to_nat a) else None.

Definition remove_nth (a : nat) (s : tensor) : tensor :=
  firstn a s ++ skipn (S a) s.

Definition set_nth (a : nat) (d : nat) (s : tensor) : tensor :=
  firstn a s ++ d :: skipn (S a) s.

Definition shape_eqb (s t : tensor) : bool :=
  if list_eq_dec Nat.eq_dec s t then true else false.

Definition batch_dot (lhs rhs : tensor) (transpose_a transpose_b : bool)
  : result tensor :=
  match lhs, rhs with
  | [b; d1; d2], [b'; e1; e2] =>
      let m := if transpose_a then d2 else d1 in
      let k := if transpose_a then d1 else d2 in
      let k' := if transpose_b then e2 else e1 in
      let n := if transpose_b then e1 else e2 in
      if ((b =? b') && (k =? k'))%nat then Ok [b; m; n] else Err ShapeMismatch
  | _, _ => Err ShapeMismatch
  end.

Definition softmax (s : tensor) (axis : Z) : result tensor :=
  match norm_axis axis (length s) with
  | Some _ => Ok s
  | None => Err ShapeMismatch
  end.

Definition expand_dims (s : tensor) (axis : Z) : result tensor :=
  let r := Z.of_nat (length s) in
  let a := if axis <? 0 then axis + r + 1 else axis in
  if (0 <=? a) && (a <=? r)
  then Ok (firstn (Z.to_nat a) s ++ 1%nat :: skipn (Z.to_nat a) s)
  else Err ShapeMismatch.

(** Broadcasting of two shapes, from the last axis backwards. *)
Fixpoint broadcast_rev (l r : list nat) : result (list nat) :=
  match l, r with
  | [], _ => Ok r
  | _, [] => Ok l
  | a :: l', b :: r' =>
      t <- broadcast_rev l' r' ;;
      if (a =? b)%nat then Ok (a :: t)
      else if (a =? 1)%nat then Ok (b :: t)
      else if (b =? 1)%nat then Ok (a :: t)
      else Err ShapeMismatch
  end.

Definition broadcast (l r : tensor) : result tensor :=
  t <- broadcast_rev (rev l) (rev r) ;; Ok (rev t).

Definition concat (ss : list tensor) (dim : Z) : result tensor :=
  match ss with
  | [] => Err ShapeMismatch
  | s0 :: _ =>
      match norm_axis dim (length s0) with
      | None => Err ShapeMismatch
      | Some a =>
          if forallb (fun s => (length s =? length s0)%nat
                               && shape_eqb (remove_nth a s) (remove_nth a s0)) ss
          then Ok (set_nth a (list_sum (map (fun s => nth a s 0%nat) ss)) s0)
          else Err ShapeMismatch
      end
  end.

Definition squeeze (s : tensor) (axis : Z) : result tensor :=
  match norm_axis axis (length s) with
  | None => Err ShapeMismatch
  | Some a => if (nth a s 0 =? 1)%nat then Ok (remove_nth a s) else Err ShapeMismatch
  end.

Definition transpose (s : tensor) (axes : list nat) : result tensor :=
  if ((length axes =? length s)%nat
      && forallb (fun i => existsb (Nat.eqb i) axes) (seq 0 (length s)))
  then Ok (map (fun i => nth i s 0%nat) axes)
  else Err ShapeMismatch.

(** The shape a layer returns, from the documentation of each Gluon layer.
    [rnn.LSTM] is built with its default layout: it takes a tensor of three
    axes and replaces the last by the width of its hidden state, doubled
    when bidirectional. *)
Definition call (b : Block) (s : tensor) : result tensor :=
  match layer b with
  | EmbeddingL _ output_dim => Ok (s ++ [Z.to_nat output_dim])
  | BatchNormL axis =>
      match norm_axis axis (length s) with
      | Some _ => Ok s
      | None => Err ShapeMismatch
      end
  | LSTML hidden_size bidirectional =>
      match s with
      | [d0; d1; _] =>
          Ok [d0; d1; ((if bidirectional then 2 else 1) * Z.to_nat hidden_size)%nat]
      | _ => Err ShapeMismatch
      end
  | DropoutL _ => Ok s
  | DenseL units _ flatten =>
      match s with
      | [] => Err ShapeMismatch
      | d0 :: _ =>
          if flatten then Ok [d0; Z.to_nat units]
          else Ok (removelast s ++ [Z.to_nat units])
      end
  | ELUL => Ok s
  | GlobalAvgPool1DL | GlobalMaxPool1DL =>
      match s with
      | [n; c; _] => Ok [n; c; 1%nat]
      | _ => Err ShapeMismatch
      end
  end.

Definition F : Backend tensor :=
  mkBackend batch_dot softmax expand_dims broadcast broadcast broadcast
            concat squeeze transpose call.

End Shape.

Local Open Scope nat_scope.

(** The shapes of all the locals of a forward call, for every model that
    [__init__] builds and every batch size and pair of lengths. *)
Definition shape_of_locals (d h nc : Z) (B L1 L2 : nat) : Locals Shape.tensor :=
  let D := Z.to_nat d in
  let H := 2 * Z.to_nat h in
  mkLocals [B; L1; D] [B; L2; D]
           [B; L1; H] [B; L2; H]
           [B; L1; H] [B; L2; H]
           [B; L1; 4 * H] [B; L2; 4 * H]
           [B; L1; H] [B; L2; H]
           [B; H; L1] [B; H; L2]
           [B; 2 * H] [B; 2 * H]
           [B; Z.to_nat nc].

Local Open Scope Z_scope.

(** ** The backend of values *)

(** A tensor is a nested list of exact rationals, tagged by its rank; the
    token ids are a matrix of integers. *)
Module Val.

Abbreviation vec := (list Qc).
Abbreviation mat := (list (list Qc)).
Abbreviation cube := (list (list (list Qc))).

Inductive tensor : Type :=
| Ids (ids : list (list Z))
| T2 (m : mat)
| T3 (t : cube).

Definition zero : Qc := Q2Qc 0.
Definition of_nat (n : nat) : Qc := Q2Qc (inject_Z (Z.of_nat n)).

Definition Qcmax (a b : Qc) : Qc :=
  match Qccompare a b with Lt => b | _ => a end.

(** *** Shapes of nested lists *)

Definition rows {A : Type} (m : list (list A)) : nat := length m.
Definition cols {A : Type} (m : list (list A)) : nat := length (hd [] m).

Definition has_shape2 {A : Type} (m : list (list A)) (r c : nat) : bool :=
  ((length m =? r) && forallb (fun v => length v =? c) m)%nat.

Definition has_shape3 {A : Type} (t : list (list (list A))) (b r c : nat) : bool :=
  ((length t =? b) && forallb (fun m => has_shape2 m r c) t)%nat.

Definition is_mat {A : Type} (m : list (list A)) : bool :=
  has_shape2 m (rows m) (cols m).

Definition is_cube {A : Type} (t : list (list (list A))) : bool :=
  has_shape3 t (length t) (rows (hd [] t)) (cols (hd [] t)).

Definition dim0 (t : cube) : nat := length t.
Definition dim1 (t : cube) : nat := rows (hd [] t).
Definition dim2 (t : cube) : nat := cols (hd [] t).

(** *** Vectors and matrices *)

Definition map2 {A B C : Type} (f : A -> B -> C) (l1 : list A) (l2 : list B)
  : list C :=
  map (fun p => f (fst p) (snd p)) (combine l1 l2).

Definition vsum (v : vec) : Qc := fold_right Qcplus zero v.

Definition dot (u v : vec) : Qc := vsum (map2 Qcmult u v).

Definition vmax (v : vec) : Qc :=
  match v with
  | [] => zero
  | a :: l => fold_left Qcmax l a
  end.

Definition mat_transpose (m : mat) : mat :=
  map (fun j => map (fun row => nth j row zero) m) (seq 0 (cols m)).

(** [matmul_nt a b] is the product of [a] and the transpose of [b]: entry
    [(i, j)] is the dot product of row [i] of [a] and row [j] of [b]. *)
Definition matmul_nt (a b : mat) : mat :=
  map (fun ra => map (fun rb => dot ra rb) b) a.

(** *** Broadcasting *)

Definition bcast_ok (d d' : nat) : bool :=
  ((d =? d') || (d =? 1) || (d' =? 1))%nat.

Definition bzip {A B C : Type} (f : A -> B -> C) (da : A) (db : B)
    (la : list A) (lb : list B) : list C :=
  if (length la =? length lb)%nat then map2 f la lb
  else if (length la =? 1)%nat then map (f (hd da la)) lb
  else map (fun a => f a (hd db lb)) la.

Definition broadcast3 (f : Qc -> Qc -> Qc) (x y : cube) : cube :=
  bzip (bzip (bzip f zero zero) [] []) [] [] x y.

Definition binary (f : Qc -> Qc -> Qc) (x y : tensor) : result tensor :=
  match x, y with
  | T3 a, T3 b =>
      if is_cube a && is_cube b && bcast_ok (dim0 a) (dim0 b)
         && bcast_ok (dim1 a) (dim1 b) && bcast_ok (dim2 a) (dim2 b)
      then Ok (T3 (broadcast3 f a b))
      else Err ShapeMismatch
  | Ids _, _ | _, Ids _ => Err TypeMismatch
  | _, _ => Err NotModelled
  end.

Section Ops.

(** The exponential of the framework. *)
Variable exp : Qc -> Qc.
(** The embedding table of an embedding block. *)
Variable weight : Block -> mat.
(** The layers with trained parameters other than the embedding: the
    normalisation, recurrent, dense, dropout and activation layers. *)
Variable trained : Block -> tensor -> result tensor.

Definition batch_dot (lhs rhs : tensor) (transpose_a transpose_b : bool)
  : result tensor :=
  match lhs, rhs with
  | T3 a, T3 b =>
      let k := if transpose_a then dim1 a else dim2 a in
      let k' := if transpose_b then dim2 b else dim1 b in
      if (is_cube a && is_cube b && (dim0 a =? dim0 b) && (k =? k'))%nat
      then Ok (T3 (map2 (fun ma mb =>
                           matmul_nt (if transpose_a then mat_transpose ma else ma)
                                     (if transpose_b then mb else mat_transpose mb))
                        a b))
      else Err ShapeMismatch
  | _, _ => Err TypeMismatch
  end.

(** [softmax(x)_i = exp(x_i) / sum_j exp(x_j)] along one axis. *)
Definition softmax_vec (v : vec) : vec :=
  let e := map exp v in
  map (fun a => Qcdiv a (vsum e)) e.

Definition softmax (x : tensor) (axis : Z) : result tensor :=
  match x with
  | T3 t =>
      if negb (is_cube t) then Err ShapeMismatch
      else if (axis =? -1) || (axis =? 2)
      then Ok (T3 (map (map softmax_vec) t))
      else if axis =? 1
      then Ok (T3 (map (fun m => mat_transpose (map softmax_vec (mat_transpose m))) t))
      else Err NotModelled
  | T2 _ => Err NotModelled
  | Ids _ => Err TypeMismatch
  end.

Definition expand_dims (x : tensor) (axis : Z) : result tensor :=
  match x with
  | T2 m =>
      if axis =? 1 then Ok (T3 (map (fun v => [v]) m))
      else if (axis =? 2) || (axis =? -1) then Ok (T3 (map (map (fun a => [a])) m))
      else Err NotModelled
  | _ => Err NotModelled
  end.

Definition add : tensor -> tensor -> result tensor := binary Qcplus.
Definition multiply : tensor -> tensor -> result tensor := binary Qcmult.
Definition subtract : tensor -> tensor -> result tensor := binary Qcminus.

Fixpoint all_T3 (ts : list tensor) : option (list cube) :=
  match ts with
  | [] => Some []
  | T3 t :: ts' => option_map (cons t) (all_T3 ts')
  | _ :: _ => None
  end.

Fixpoint all_T2 (ts : list tensor) : option (list mat) :=
  match ts with
  | [] => Some []
  | T2 m :: ts' => option_map (cons m) (all_T2 ts')
  | _ :: _ => None
  end.

(** Concatenation along the last axis. *)
Definition concat (ts : list tensor) (dim : Z) : result tensor :=
  match ts with
  | [] => Err ShapeMismatch
  | T3 t0 :: ts' =>
      match all_T3 ts' with
      | None => Err TypeMismatch
      | Some cs =>
          if negb ((dim =? -1) || (dim =? 2)) then Err NotModelled
          else if is_cube t0
                  && forallb (fun c => is_cube c && (dim0 c =? dim0 t0)%nat
                                       && (dim1 c =? dim1 t0)%nat) cs
          then Ok (T3 (fold_left (fun acc c => map2 (map2 (@app Qc)) acc c) cs t0))
          else Err ShapeMismatch
      end
  | T2 m0 :: ts' =>
      match all_T2 ts' with
      | None => Err TypeMismatch
      | Some ms =>
          if negb ((dim =? -1) || (dim =? 1)) then Err NotModelled
          else if is_mat m0 && forallb (fun m => is_mat m && (rows m =? rows m0)%nat) ms
          then Ok (T2 (fold_left (fun acc m => map2 (@app Qc) acc m) ms m0))
          else Err ShapeMismatch
      end
  | Ids _ :: _ => Err TypeMismatch
  end.

Definition squeeze (x : tensor) (axis : Z) : result tensor :=
  match x with
  | T3 t =>
      if negb ((axis =? -1) || (axis =? 2)) then Err NotModelled
      else if (is_cube t && (dim2 t =? 1)%nat)
      then Ok (T2 (map (map (hd zero)) t))
      else Err ShapeMismatch
  | _ => Err NotModelled
  end.

Definition transpose (x : tensor) (axes : list nat) : result tensor :=
  match x with
  | T3 t =>
      if negb (is_cube t) then Err ShapeMismatch
      else if Shape.shape_eqb axes [0; 2; 1]%nat
      then Ok (T3 (map mat_transpose t))
      else Err NotModelled
  | _ => Err NotModelled
  end.

(** The row of the table an id selects.  The operator behind
    [nn.Embedding] (with its default, dense gradient) takes an index that
    is too large as the index of the last row of the table, and a negative
    one as the index of the first; it raises nothing. *)
Definition clip_index (input_dim : Z) (id : Z) : nat :=
  Z.to_nat (if id <? 0 then 0 else if input_dim <=? id then input_dim - 1 else id).

Definition embedding_lookup (input_dim output_dim : Z) (w : mat) (ids : list (list Z))
  : cube :=
  map (map (fun id => nth (clip_index input_dim id) w
                          (repeat zero (Z.to_nat output_dim)))) ids.

(** Global pooling of a channel-major signal [(batch, channels, width)]:
    every channel is reduced over its whole width. *)
Definition global_avg_pool (t : cube) : cube :=
  map (map (fun ch => [Qcdiv (vsum ch) (of_nat (length ch))])) t.

Definition global_max_pool (t : cube) : cube :=
  map (map (fun ch => [vmax ch])) t.

Definition call (b : Block) (x : tensor) : result tensor :=
  match layer b, x with
  | EmbeddingL input_dim output_dim, Ids ids =>
      if is_mat ids then Ok (T3 (embedding_lookup input_dim output_dim (weight b) ids))
      else Err ShapeMismatch
  | EmbeddingL _ _, _ => Err TypeMismatch
  | GlobalAvgPool1DL, T3 t =>
      if (is_cube t && (0 <? dim2 t))%nat then Ok (T3 (global_avg_pool t))
      else Err ShapeMismatch
  | GlobalMaxPool1DL, T3 t =>
      if (is_cube t && (0 <? dim2 t))%nat then Ok (T3 (global_max_pool t))
      else Err ShapeMismatch
  | GlobalAvgPool1DL, _ | GlobalMaxPool1DL, _ => Err ShapeMismatch
  | _, _ => trained b x
  end.

Definition F : Backend tensor :=
  mkBackend batch_dot softmax expand_dims add multiply subtract
            concat squeeze transpose call.

End Ops.

End Val.

(** ** Tensors by their entries *)

(** [tab n f] is the list [f 0; ...; f (n - 1)]; every tensor of a given
    shape is the table of its entries. *)
Definition tab {A : Type} (n : nat) (f : nat -> A) : list A := map f (seq 0 n).

Definition tab2 {A : Type} (r c : nat) (f : nat -> nat -> A) : list (list A) :=
  tab r (fun i => tab c (f i)).

Definition tab3 {A : Type} (b r c : nat) (f : nat -> nat -> nat -> A)
  : list (list (list A)) :=
  tab b (fun n => tab2 r c (f n)).

Definition row2 (m : Val.mat) (b : nat) : Val.vec := nth b m [].
Definition row3 (t : Val.cube) (b i : nat) : Val.vec := nth i (nth b t []) [].
Definition entry2 (m : Val.mat) (b j : nat) : Qc := nth j (row2 m b) Val.zero.
Definition entry3 (t : Val.cube) (b i k : nat) : Qc := nth k (row3 t b i) Val.zero.

(** The sum of [f 0], ..., [f (n - 1)]. *)
Definition big_sum (n : nat) (f : nat -> Qc) : Qc := Val.vsum (tab n f).

(** The average and the maximum of channel [c] of sentence [b] over all
    the [L] time steps of [x]. *)
Definition time_avg (x : Val.cube) (L b c : nat) : Qc :=
  Qcdiv (big_sum L (fun t => entry3 x b t c)) (Val.of_nat L).

Definition time_max (x : Val.cube) (L b c : nat) : Qc :=
  Val.vmax (tab L (fun t => entry3 x b t c)).

(** The rows of [concat(x, a, _submul(x, a))]. *)
Definition combined_row (u v : Val.vec) : Val.vec :=
  u ++ v ++ Val.map2 Qcmult u v ++ Val.map2 Qcminus u v.

(** ** The alignment as the specification words it *)

(** Written from the specification of the soft attention alignment, entry
    by entry, for an encoded premise [X1] of shape [(batch, L1, H)], an
    encoded hypothesis [X2] of shape [(batch, L2, H)] and the masks. *)
Module AlignSpec.
Section AlignSpec.
Variable exp : Qc -> Qc.
Variables X1 X2 : Val.cube.
Variables mask1 mask2 : Val.mat.
Variables L1 L2 H : nat.

(** Raw scores [E = X1 . X2^T], per batch. *)
Definition E (b i j : nat) : Qc :=
  big_sum H (fun k => Qcmult (entry3 X1 b i k) (entry3 X2 b j k)).

(** Direction 1: [mask2] is added along the [L1] axis (the same bias in
    every row [i]), the softmax normalises over the [L2] axis. *)
Definition weight1 (b i j : nat) : Qc :=
  Qcdiv (exp (Qcplus (E b i j) (entry2 mask2 b j)))
        (big_sum L2 (fun j' => exp (Qcplus (E b i j') (entry2 mask2 b j')))).

(** [X1_aligned = weight1 . X2]. *)
Definition X1_aligned (b i k : nat) : Qc :=
  big_sum L2 (fun j => Qcmult (weight1 b i j) (entry3 X2 b j k)).

(** Direction 2: [mask1] is added along the [L2] axis (the same bias in
    every column [j]), the softmax normalises over the [L1] axis. *)
Definition weight2 (b i j : nat) : Qc :=
  Qcdiv (exp (Qcplus (E b i j) (entry2 mask1 b i)))
        (big_sum L1 (fun i' => exp (Qcplus (E b i' j) (entry2 mask1 b i')))).

(** [X2_aligned = weight2^T . X1]. *)
Definition X2_aligned (b j k : nat) : Qc :=
  big_sum L1 (fun i => Qcmult (weight2 b i j) (entry3 X1 b i k)).

End AlignSpec.
End AlignSpec.

(** ** A small run *)

(** Inputs on which the definitions are evaluated: one sentence pair, a
    premise of three tokens and a hypothesis of two, width two.  [exp] is
    any function from rationals to positive rationals. *)
Module Sample.

Definition q (a : Z) : Qc := Q2Qc (inject_Z a).
Definition exp (x : Qc) : Qc := Qcplus (Qcmult x x) (q 1).
Definition weight (b : Block) : Val.mat :=
  [[q 1; q 2]; [q 0; q 1]; [q 1; q 1]; [q 2; q 0]].
(** Trained layers that return their input: enough to run the forward
    pass on values. *)
Definition trained (b : Block) (x : Val.tensor) : result Val.tensor := Ok x.
Definition F : Backend Val.tensor := Val.F exp weight trained.

Definition x1 : Val.cube := [[[q 1; q 2]; [q 0; q 1]; [q 1; q 1]]].
Definition x2 : Val.cube := [[[q 1; q 0]; [q 2; q 1]]].
Definition mask1 : Val.mat := [[q 0; q 0; q (-1)]].
Definition mask2 : Val.mat := [[q 0; q (-2)]].
Definition mask1' : Val.mat := [[q 0; q (-3); q (-3)]].
Definition ids1 : list (list Z) := [[0; 1; 2]]%Z.
Definition ids2 : list (list Z) := [[3; 1]]%Z.
Definition model : ESIM := built 4 2 1 1 1 0.
(** The locals of the forward call on [ids1], [ids2] under two pairs of
    masks. *)
Definition no_locals : Locals Val.tensor :=
  let e := Val.T2 [] in mkLocals e e e e e e e e e e e e e e e.
Definition locals_or_none (r : result (Locals Val.tensor)) : Locals Val.tensor :=
  match r with Ok s => s | Err _ => no_locals end.
Definition s : Locals Val.tensor :=
  Eval vm_compute in
    locals_or_none (hybrid_forward_locals F model (Val.Ids ids1) (Val.Ids ids2)
                                          (Val.T2 mask1) (Val.T2 mask2)).
Definition s' : Locals Val.tensor :=
  Eval vm_compute in
    locals_or_none (hybrid_forward_locals F model (Val.Ids ids1) (Val.Ids ids2)
                                          (Val.T2 mask1') (Val.T2 mask2)).
Definition compose1 : Val.cube :=
  match x1_compose s with Val.T3 t => t | _ => [] end.
Definition compose2 : Val.cube :=
  match x2_compose s with Val.T3 t => t | _ => [] end.
(** A sentence whose three time steps are the same vector. *)
Definition xc : Val.cube := [[[q 3; q 5]; [q 3; q 5]; [q 3; q 5]]].

End Sample.

(** ** Lists as tables *)

Lemma tab_length (A : Type) (n : nat) (f : nat -> A) : length (tab n f) = n.
Proof. unfold tab. now rewrite length_map, length_seq. Qed.

Lemma tab_nth (A : Type) (n : nat) (f : nat -> A) (d : A) (i : nat) :
  (i < n)%nat -> nth i (tab n f) d = f i.
Proof.
  intros Hi. unfold tab.
  rewrite (nth_indep _ d (f 0%nat)) by now rewrite length_map, length_seq.
  rewrite map_nth. now rewrite seq_nth.
Qed.

Lemma tab_ext (A : Type) (n : nat) (f g : nat -> A) :
  (forall i, (i < n)%nat -> f i = g i) -> tab n f = tab n g.
Proof.
  intros Hfg. unfold tab. apply map_ext_in.
  intros i Hi. apply in_seq in Hi. apply Hfg. lia.
Qed.

Lemma tab_of_list (A : Type) (d : A) (l : list A) :
  l = tab (length l) (fun i => nth i l d).
Proof.
  apply (nth_ext _ _ d d).
  - now rewrite tab_length.
  - intros i Hi. now rewrite tab_nth.
Qed.

Lemma tab_map (A B : Type) (g : A -> B) (n : nat) (f : nat -> A) :
  map g (tab n f) = tab n (fun i => g (f i)).
Proof. unfold tab. now rewrite map_map. Qed.

Lemma tab_S (A : Type) (n : nat) (f : nat -> A) :
  tab (S n) f = f 0%nat :: tab n (fun i => f (S i)).
Proof.
  unfold tab. simpl. f_equal. rewrite <- seq_shift. now rewrite map_map.
Qed.

Lemma tab_map2 (A B C : Type) (h : A -> B -> C) (n : nat)
    (f : nat -> A) (g : nat -> B) :
  Val.map2 h (tab n f) (tab n g) = tab n (fun i => h (f i) (g i)).
Proof.
  revert f g. induction n as [|n IH]; intros f g.
  - reflexivity.
  - rewrite !tab_S. unfold Val.map2 in *. simpl. f_equal. apply IH.
Qed.

Lemma tab_hd (A : Type) (d : A) (n : nat) (f : nat -> A) :
  (0 < n)%nat -> hd d (tab n f) = f 0%nat.
Proof. destruct n; [lia|]. intros _. now rewrite tab_S. Qed.

Local Open Scope nat_scope.

(** ** Shapes of tensors of values *)

Lemma has_shape2_spec (A : Type) (m : list (list A)) (r c : nat) :
  Val.has_shape2 m r c = true <->
  length m = r /\ (forall v, In v m -> length v = c).
Proof.
  unfold Val.has_shape2. rewrite andb_true_iff, Nat.eqb_eq, forallb_forall.
  split; intros [H1 H2]; split; auto; intros v Hv.
  - now apply Nat.eqb_eq, H2.
  - now apply Nat.eqb_eq, H2.
Qed.

Lemma has_shape3_spec (A : Type) (t : list (list (list A))) (b r c : nat) :
  Val.has_shape3 t b r c = true <->
  length t = b /\ (forall m, In m t -> Val.has_shape2 m r c = true).
Proof.
  unfold Val.has_shape3. rewrite andb_true_iff, Nat.eqb_eq, forallb_forall.
  tauto.
Qed.

Lemma tab2_shape (A : Type) (r c : nat) (f : nat -> nat -> A) :
  Val.has_shape2 (tab2 r c f) r c = true.
Proof.
  apply has_shape2_spec. unfold tab2. split.
  - apply tab_length.
  - intros v Hv. unfold tab in Hv. apply in_map_iff in Hv.
    destruct Hv as [i [<- _]]. apply tab_length.
Qed.

Lemma rows_shape (A : Type) (b r : nat) (f : nat -> nat -> list A) (c : nat) :
  (forall n i, n < b -> i < r -> length (f n i) = c) ->
  Val.has_shape3 (tab b (fun n => tab r (f n))) b r c = true.
Proof.
  intros Hf. apply has_shape3_spec. split.
  - apply tab_length.
  - intros m Hm. unfold tab in Hm at 1. apply in_map_iff in Hm.
    destruct Hm as [n [<- Hn]]. apply in_seq in Hn.
    apply has_shape2_spec. split.
    + apply tab_length.
    + intros v Hv. unfold tab in Hv. apply in_map_iff in Hv.
      destruct Hv as [i [<- Hi]]. apply in_seq in Hi. apply Hf; lia.
Qed.

Lemma tab3_shape (A : Type) (b r c : nat) (f : nat -> nat -> nat -> A) :
  Val.has_shape3 (tab3 b r c f) b r c = true.
Proof.
  unfold tab3, tab2. apply rows_shape. intros. apply tab_length.
Qed.

(** [i < n] from [i < r] and an equation [n = r], up to conversion of the
    type of the list whose length [n] is. *)
Ltac by_len H :=
  eapply Nat.lt_le_trans; [eassumption | apply Nat.eq_le_incl; symmetry; exact H].

Lemma shape2_tab (m : Val.mat) (r c : nat) :
  Val.has_shape2 m r c = true -> m = tab2 r c (entry2 m).
Proof.
  intros Hm. apply has_shape2_spec in Hm. destruct Hm as [Hr Hc].
  unfold tab2. rewrite (tab_of_list [] m) at 1. rewrite Hr.
  apply tab_ext. intros i Hi.
  rewrite (tab_of_list Val.zero (nth i m [])) at 1.
  rewrite (Hc (nth i m [])) by (apply nth_In; by_len Hr).
  reflexivity.
Qed.

Lemma shape3_rows (t : Val.cube) (b r c : nat) :
  Val.has_shape3 t b r c = true -> t = tab b (fun n => tab r (row3 t n)).
Proof.
  intros Ht. apply has_shape3_spec in Ht. destruct Ht as [Hb Hm].
  rewrite (tab_of_list [] t) at 1. rewrite Hb.
  apply tab_ext. intros n Hn.
  assert (Hs : Val.has_shape2 (nth n t []) r c = true)
    by (apply Hm, nth_In; by_len Hb).
  apply has_shape2_spec in Hs. destruct Hs as [Hr _].
  rewrite (tab_of_list [] (nth n t [])) at 1. now rewrite Hr.
Qed.

Lemma shape3_tab (t : Val.cube) (b r c : nat) :
  Val.has_shape3 t b r c = true -> t = tab3 b r c (entry3 t).
Proof.
  intros Ht. apply has_shape3_spec in Ht. destruct Ht as [Hb Hm].
  unfold tab3. rewrite (tab_of_list [] t) at 1. rewrite Hb.
  apply tab_ext. intros n Hn.
  apply shape2_tab, Hm, nth_In. by_len Hb.
Qed.

Lemma shape3_row_length (t : Val.cube) (b r c n i : nat) :
  Val.has_shape3 t b r c = true -> n < b -> i < r -> length (row3 t n i) = c.
Proof.
  intros Ht Hn Hi. apply has_shape3_spec in Ht. destruct Ht as [Hb Hm].
  assert (Hs : Val.has_shape2 (nth n t []) r c = true)
    by (apply Hm, nth_In; by_len Hb).
  apply has_shape2_spec in Hs. destruct Hs as [Hr Hc].
  apply Hc. unfold row3. apply nth_In. by_len Hr.
Qed.

Lemma shape3_cube (A : Type) (t : list (list (list A))) (b r c : nat) :
  Val.has_shape3 t b r c = true -> 0 < b -> 0 < r ->
  Val.is_cube t = true /\ length t = b
  /\ Val.rows (hd [] t) = r /\ Val.cols (hd [] t) = c.
Proof.
  intros Ht Hb Hr. pose proof Ht as Ht'.
  apply has_shape3_spec in Ht. destruct Ht as [Hlen Hm].
  destruct t as [|m t]; [simpl in Hlen; lia|].
  assert (Hs : Val.has_shape2 m r c = true) by (apply Hm; now left).
  apply has_shape2_spec in Hs. destruct Hs as [Hrm Hc].
  destruct m as [|v m]; [simpl in Hrm; lia|].
  assert (Hv : length v = c) by (apply Hc; now left).
  assert (E1 : Val.rows (hd [] ((v :: m) :: t)) = r) by exact Hrm.
  assert (E2 : Val.cols (hd [] ((v :: m) :: t)) = c) by exact Hv.
  unfold Val.is_cube. rewrite E1, E2, Hlen. auto.
Qed.

Lemma tab3_cube (A : Type) (b r c : nat) (f : nat -> nat -> nat -> A) :
  0 < b -> 0 < r ->
  Val.is_cube (tab3 b r c f) = true /\ length (tab3 b r c f) = b
  /\ Val.rows (hd [] (tab3 b r c f)) = r /\ Val.cols (hd [] (tab3 b r c f)) = c.
Proof. intros. apply shape3_cube; auto. apply tab3_shape. Qed.

(** The checks of an operator on tables of positive sizes succeed. *)
Ltac cube_dims :=
  repeat match goal with
  | |- context [Val.is_cube (tab3 ?b ?r ?c ?f)] =>
      let H := fresh in
      destruct (@tab3_cube _ b r c f) as (H & _); [lia | lia | rewrite H; clear H]
  | |- context [length (tab3 ?b ?r ?c ?f)] =>
      let H := fresh in
      destruct (@tab3_cube _ b r c f) as (_ & H & _); [lia | lia | rewrite H; clear H]
  | |- context [Val.rows (hd [] (tab3 ?b ?r ?c ?f))] =>
      let H := fresh in
      destruct (@tab3_cube _ b r c f) as (_ & _ & H & _); [lia | lia | rewrite H; clear H]
  | |- context [Val.cols (hd [] (tab3 ?b ?r ?c ?f))] =>
      let H := fresh in
      destruct (@tab3_cube _ b r c f) as (_ & _ & _ & H); [lia | lia | rewrite H; clear H]
  end.

Lemma shape2_mat (A : Type) (m : list (list A)) (r c : nat) :
  Val.has_shape2 m r c = true -> 0 < r ->
  Val.is_mat m = true /\ Val.rows m = r /\ Val.cols m = c.
Proof.
  intros Hm Hr. pose proof Hm as Hm'.
  apply has_shape2_spec in Hm. destruct Hm as [Hlen Hc].
  destruct m as [|v m]; [simpl in Hlen; lia|].
  assert (Hv : length v = c) by (apply Hc; now left).
  assert (E2 : Val.cols (v :: m) = c) by exact Hv.
  unfold Val.is_mat. unfold Val.rows. rewrite E2, Hlen. auto.
Qed.

(** ** Vectors and matrices as tables *)

Lemma big_sum_ext (n : nat) (f g : nat -> Qc) :
  (forall i, i < n -> f i = g i) -> big_sum n f = big_sum n g.
Proof. intros Hfg. unfold big_sum. f_equal. now apply tab_ext. Qed.

Lemma dot_tab (n : nat) (f g : nat -> Qc) :
  Val.dot (tab n f) (tab n g) = big_sum n (fun k => Qcmult (f k) (g k)).
Proof. unfold Val.dot, big_sum. now rewrite tab_map2. Qed.

Lemma tab2_ext (A : Type) (r c : nat) (f g : nat -> nat -> A) :
  (forall i j, i < r -> j < c -> f i j = g i j) -> tab2 r c f = tab2 r c g.
Proof.
  intros Hfg. unfold tab2. apply tab_ext. intros i Hi.
  apply tab_ext. intros j Hj. now apply Hfg.
Qed.

Lemma tab3_ext (A : Type) (b r c : nat) (f g : nat -> nat -> nat -> A) :
  (forall n i j, n < b -> i < r -> j < c -> f n i j = g n i j) ->
  tab3 b r c f = tab3 b r c g.
Proof.
  intros Hfg. unfold tab3. apply tab_ext. intros n Hn.
  apply tab2_ext. intros i j Hi Hj. now apply Hfg.
Qed.

Lemma tab2_cols (A : Type) (r c : nat) (f : nat -> nat -> A) :
  0 < r -> Val.cols (tab2 r c f) = c.
Proof.
  intros Hr. unfold Val.cols, tab2. rewrite tab_hd by exact Hr. apply tab_length.
Qed.

Lemma mat_transpose_tab2 (r c : nat) (f : nat -> nat -> Qc) :
  0 < r ->
  Val.mat_transpose (tab2 r c f) = tab2 c r (fun j i => f i j).
Proof.
  intros Hr. unfold Val.mat_transpose. rewrite tab2_cols by exact Hr.
  fold (tab c (fun j => map (fun row => nth j row Val.zero) (tab2 r c f))).
  unfold tab2. apply tab_ext. intros j Hj.
  rewrite tab_map. apply tab_ext. intros i Hi. now rewrite tab_nth.
Qed.

Lemma matmul_nt_tab2 (m n k : nat) (f g : nat -> nat -> Qc) :
  Val.matmul_nt (tab2 m k f) (tab2 n k g)
  = tab2 m n (fun i j => big_sum k (fun l => Qcmult (f i l) (g j l))).
Proof.
  unfold Val.matmul_nt, tab2. rewrite tab_map. apply tab_ext. intros i Hi.
  rewrite tab_map. apply tab_ext. intros j Hj. apply dot_tab.
Qed.

Lemma bzip_same (A B C : Type) (f : A -> B -> C) (da : A) (db : B)
    (n : nat) (g : nat -> A) (h : nat -> B) :
  Val.bzip f da db (tab n g) (tab n h) = tab n (fun i => f (g i) (h i)).
Proof.
  unfold Val.bzip. rewrite !tab_length, Nat.eqb_refl. apply tab_map2.
Qed.

Lemma bzip_right_one (A B C : Type) (f : A -> B -> C) (da : A) (db : B)
    (n : nat) (g : nat -> A) (h : nat -> B) :
  Val.bzip f da db (tab n g) (tab 1 h) = tab n (fun i => f (g i) (h 0)).
Proof.
  unfold Val.bzip. rewrite !tab_length.
  destruct (Nat.eqb_spec n 1) as [->|Hn].
  - reflexivity.
  - rewrite tab_map. reflexivity.
Qed.

Section ValOps.
Variable exp : Qc -> Qc.
Variable weight : Block -> Val.mat.
Variable trained : Block -> Val.tensor -> result Val.tensor.

Lemma softmax_vec_tab (n : nat) (f : nat -> Qc) :
  Val.softmax_vec exp (tab n f)
  = tab n (fun j => Qcdiv (exp (f j)) (big_sum n (fun j' => exp (f j')))).
Proof.
  unfold Val.softmax_vec. rewrite !tab_map. reflexivity.
Qed.


Lemma batch_dot_nt (b m n k : nat) (f g : nat -> nat -> nat -> Qc) :
  0 < b -> 0 < m -> 0 < n ->
  Val.batch_dot (Val.T3 (tab3 b m k f)) (Val.T3 (tab3 b n k g)) false true
  = Ok (Val.T3 (tab3 b m n (fun s i j =>
                               big_sum k (fun l => Qcmult (f s i l) (g s j l))))).
Proof.
  intros Hb Hm Hn. unfold Val.batch_dot, Val.dim0, Val.dim1, Val.dim2.
  cube_dims. rewrite !Nat.eqb_refl. simpl. do 2 f_equal.
  unfold tab3. rewrite tab_map2. apply tab_ext. intros s Hs.
  apply matmul_nt_tab2.
Qed.

Lemma batch_dot_nn (b m n k : nat) (f g : nat -> nat -> nat -> Qc) :
  0 < b -> 0 < m -> 0 < k ->
  Val.batch_dot (Val.T3 (tab3 b m k f)) (Val.T3 (tab3 b k n g)) false false
  = Ok (Val.T3 (tab3 b m n (fun s i j =>
                               big_sum k (fun l => Qcmult (f s i l) (g s l j))))).
Proof.
  intros Hb Hm Hk. unfold Val.batch_dot, Val.dim0, Val.dim1, Val.dim2.
  cube_dims. rewrite !Nat.eqb_refl. simpl. do 2 f_equal.
  unfold tab3. rewrite tab_map2. apply tab_ext. intros s Hs.
  rewrite mat_transpose_tab2 by exact Hk. apply matmul_nt_tab2.
Qed.

Lemma batch_dot_tn (b m n k : nat) (f g : nat -> nat -> nat -> Qc) :
  0 < b -> 0 < k ->
  Val.batch_dot (Val.T3 (tab3 b k m f)) (Val.T3 (tab3 b k n g)) true false
  = Ok (Val.T3 (tab3 b m n (fun s i j =>
                               big_sum k (fun l => Qcmult (f s l i) (g s l j))))).
Proof.
  intros Hb Hk. unfold Val.batch_dot, Val.dim0, Val.dim1, Val.dim2.
  cube_dims. rewrite !Nat.eqb_refl. simpl. do 2 f_equal.
  unfold tab3. rewrite tab_map2. apply tab_ext. intros s Hs.
  rewrite !mat_transpose_tab2 by exact Hk. apply matmul_nt_tab2.
Qed.

Lemma expand_dims_1 (b l : nat) (f : nat -> nat -> Qc) :
  Val.expand_dims (Val.T2 (tab2 b l f)) 1
  = Ok (Val.T3 (tab3 b 1 l (fun s _ j => f s j))).
Proof.
  unfold Val.expand_dims. simpl. do 2 f_equal.
  unfold tab2, tab3, tab2. rewrite tab_map. reflexivity.
Qed.

Lemma expand_dims_2 (b l : nat) (f : nat -> nat -> Qc) :
  Val.expand_dims (Val.T2 (tab2 b l f)) 2
  = Ok (Val.T3 (tab3 b l 1 (fun s i _ => f s i))).
Proof.
  unfold Val.expand_dims. simpl. do 2 f_equal.
  unfold tab2, tab3, tab2. rewrite tab_map. apply tab_ext. intros s Hs.
  rewrite tab_map. reflexivity.
Qed.

Lemma bcast_ok_same (d : nat) : Val.bcast_ok d d = true.
Proof. unfold Val.bcast_ok. now rewrite Nat.eqb_refl. Qed.

Lemma bcast_ok_one (d : nat) : Val.bcast_ok d 1 = true.
Proof. unfold Val.bcast_ok. simpl. now rewrite orb_true_r. Qed.

Lemma binary_same (op : Qc -> Qc -> Qc) (b r c : nat)
    (f g : nat -> nat -> nat -> Qc) :
  0 < b -> 0 < r ->
  Val.binary op (Val.T3 (tab3 b r c f)) (Val.T3 (tab3 b r c g))
  = Ok (Val.T3 (tab3 b r c (fun s i j => op (f s i j) (g s i j)))).
Proof.
  intros Hb Hr. unfold Val.binary, Val.dim0, Val.dim1, Val.dim2.
  cube_dims. rewrite !bcast_ok_same. simpl. do 2 f_equal.
  unfold Val.broadcast3, tab3, tab2. rewrite bzip_same. apply tab_ext. intros s Hs.
  rewrite bzip_same. apply tab_ext. intros i Hi. apply bzip_same.
Qed.

Lemma binary_mid_one (op : Qc -> Qc -> Qc) (b r c : nat)
    (f g : nat -> nat -> nat -> Qc) :
  0 < b -> 0 < r ->
  Val.binary op (Val.T3 (tab3 b r c f)) (Val.T3 (tab3 b 1 c g))
  = Ok (Val.T3 (tab3 b r c (fun s i j => op (f s i j) (g s 0 j)))).
Proof.
  intros Hb Hr. unfold Val.binary, Val.dim0, Val.dim1, Val.dim2.
  cube_dims. rewrite !bcast_ok_same, bcast_ok_one. simpl. do 2 f_equal.
  unfold Val.broadcast3, tab3, tab2. rewrite bzip_same. apply tab_ext. intros s Hs.
  rewrite bzip_right_one. apply tab_ext. intros i Hi. apply bzip_same.
Qed.

Lemma binary_last_one (op : Qc -> Qc -> Qc) (b r c : nat)
    (f g : nat -> nat -> nat -> Qc) :
  0 < b -> 0 < r ->
  Val.binary op (Val.T3 (tab3 b r c f)) (Val.T3 (tab3 b r 1 g))
  = Ok (Val.T3 (tab3 b r c (fun s i j => op (f s i j) (g s i 0)))).
Proof.
  intros Hb Hr. unfold Val.binary, Val.dim0, Val.dim1, Val.dim2.
  cube_dims. rewrite !bcast_ok_same, bcast_ok_one. simpl. do 2 f_equal.
  unfold Val.broadcast3, tab3, tab2. rewrite bzip_same. apply tab_ext. intros s Hs.
  rewrite bzip_same. apply tab_ext. intros i Hi. apply bzip_right_one.
Qed.

Lemma softmax_last (b r c : nat) (f : nat -> nat -> nat -> Qc) :
  0 < b -> 0 < r ->
  Val.softmax exp (Val.T3 (tab3 b r c f)) (-1)
  = Ok (Val.T3 (tab3 b r c (fun s i j =>
          Qcdiv (exp (f s i j)) (big_sum c (fun j' => exp (f s i j')))))).
Proof.
  intros Hb Hr. unfold Val.softmax. cube_dims. simpl. do 2 f_equal.
  unfold tab3, tab2. rewrite tab_map. apply tab_ext. intros s Hs.
  rewrite tab_map. apply tab_ext. intros i Hi. apply softmax_vec_tab.
Qed.

Lemma softmax_axis1 (b r c : nat) (f : nat -> nat -> nat -> Qc) :
  0 < b -> 0 < r -> 0 < c ->
  Val.softmax exp (Val.T3 (tab3 b r c f)) 1
  = Ok (Val.T3 (tab3 b r c (fun s i j =>
          Qcdiv (exp (f s i j)) (big_sum r (fun i' => exp (f s i' j)))))).
Proof.
  intros Hb Hr Hc. unfold Val.softmax. cube_dims. simpl. do 2 f_equal.
  unfold tab3. rewrite tab_map. apply tab_ext. intros s Hs.
  rewrite mat_transpose_tab2 by exact Hr.
  unfold tab2 at 1. rewrite tab_map.
  transitivity (Val.mat_transpose
    (tab2 c r (fun j i => Qcdiv (exp (f s i j))
                                  (big_sum r (fun i' => exp (f s i' j)))))).
  - f_equal. unfold tab2. apply tab_ext. intros j Hj. apply softmax_vec_tab.
  - now rewrite mat_transpose_tab2 by exact Hc.
Qed.

Lemma entry3_tab3 (b r c : nat) (f : nat -> nat -> nat -> Qc) (n i j : nat) :
  n < b -> i < r -> j < c -> entry3 (tab3 b r c f) n i j = f n i j.
Proof.
  intros Hn Hi Hj. unfold entry3, row3, tab3, tab2.
  now rewrite !tab_nth.
Qed.

Lemma entry2_tab2 (r c : nat) (f : nat -> nat -> Qc) (i j : nat) :
  i < r -> j < c -> entry2 (tab2 r c f) i j = f i j.
Proof.
  intros Hi Hj. unfold entry2, row2, tab2. now rewrite !tab_nth.
Qed.

Let VF : Backend Val.tensor := Val.F exp weight trained.

Section Align.
Variables x1 x2 : Val.cube.
Variables mask1 mask2 : Val.mat.
Variables B L1 L2 H : nat.
Hypothesis Hx1 : Val.has_shape3 x1 B L1 H = true.
Hypothesis Hx2 : Val.has_shape3 x2 B L2 H = true.
Hypothesis Hm1 : Val.has_shape2 mask1 B L1 = true.
Hypothesis Hm2 : Val.has_shape2 mask2 B L2 = true.
Hypothesis HB : 0 < B.
Hypothesis HL1 : 0 < L1.
Hypothesis HL2 : 0 < L2.

Let E := AlignSpec.E x1 x2 H.
Let W1 := AlignSpec.weight1 exp x1 x2 mask2 L2 H.
Let W2 := AlignSpec.weight2 exp x1 x2 mask1 L1 H.
Let A1 := AlignSpec.X1_aligned exp x1 x2 mask2 L2 H.
Let A2 := AlignSpec.X2_aligned exp x1 x2 mask1 L1 H.

Lemma attention_table :
  Val.batch_dot (Val.T3 x1) (Val.T3 x2) false true = Ok (Val.T3 (tab3 B L1 L2 E)).
Proof.
  rewrite (@shape3_tab _ _ _ _ Hx1) at 1. rewrite (@shape3_tab _ _ _ _ Hx2) at 1.
  now rewrite batch_dot_nt.
Qed.

Lemma weight1_table :
  weight1_of VF (Val.T3 x1) (Val.T3 x2) (Val.T2 mask2) = Ok (Val.T3 (tab3 B L1 L2 W1)).
Proof.
  unfold weight1_of, VF. cbn [batch_dot expand_dims add softmax Val.F].
  rewrite attention_table. cbn [bind].
  rewrite (@shape2_tab _ _ _ Hm2) at 1. rewrite expand_dims_1. cbn [bind].
  unfold Val.add. rewrite binary_mid_one by assumption. cbn [bind].
  rewrite softmax_last by assumption. reflexivity.
Qed.

Lemma weight2_table :
  weight2_of VF (Val.T3 x1) (Val.T3 x2) (Val.T2 mask1) = Ok (Val.T3 (tab3 B L1 L2 W2)).
Proof.
  unfold weight2_of, VF. cbn [batch_dot expand_dims add softmax Val.F].
  rewrite attention_table. cbn [bind].
  rewrite (@shape2_tab _ _ _ Hm1) at 1. rewrite expand_dims_2. cbn [bind].
  unfold Val.add. rewrite binary_last_one by assumption. cbn [bind].
  rewrite softmax_axis1 by assumption. reflexivity.
Qed.

Lemma soft_attention_align_table :
  _soft_attention_align VF (Val.T3 x1) (Val.T3 x2) (Val.T2 mask1) (Val.T2 mask2)
  = Ok (Val.T3 (tab3 B L1 H A1), Val.T3 (tab3 B L2 H A2)).
Proof.
  pose proof weight1_table as H1. pose proof weight2_table as H2.
  unfold weight1_of, weight2_of in H1, H2.
  unfold _soft_attention_align.
  destruct (batch_dot VF (Val.T3 x1) (Val.T3 x2) false true) as [att|e];
    [|discriminate]. cbn [bind] in *.
  destruct (expand_dims VF (Val.T2 mask2) 1) as [m2|e]; [|discriminate].
  destruct (expand_dims VF (Val.T2 mask1) 2) as [m1|e]; [|discriminate].
  cbn [bind] in *.
  destruct (add VF att m2) as [a1|e]; [|discriminate].
  destruct (add VF att m1) as [a2|e]; [|discriminate].
  cbn [bind] in *. rewrite H1, H2. cbn [bind].
  unfold VF. cbn [batch_dot Val.F].
  rewrite (@shape3_tab _ _ _ _ Hx2) at 1. rewrite batch_dot_nn by assumption. cbn [bind].
  rewrite (@shape3_tab _ _ _ _ Hx1) at 1. rewrite batch_dot_tn by assumption. cbn [bind].
  reflexivity.
Qed.

End Align.

End ValOps.

(** ** Soft attention alignment *)

(** C2. Direction 1 of the alignment, on values: for an encoded premise
    [x1] of shape [(B, L1, H)], an encoded hypothesis [x2] of shape
    [(B, L2, H)] and masks of shapes [(B, L1)] and [(B, L2)], the raw scores
    are [E = x1 . x2^T] per sentence pair, of shape [(B, L1, L2)]; the
    weights the source computes have shape [(B, L1, L2)] and are the softmax
    over the [L2] axis of [E] plus [mask2] (the same bias in every row);
    and the first result of [_soft_attention_align] has shape [(B, L1, H)]
    and is [weight1 . x2]. *)
Theorem soft_attention_direction1
    (exp : Qc -> Qc) (weight : Block -> Val.mat)
    (trained : Block -> Val.tensor -> result Val.tensor)
    (x1 x2 : Val.cube) (mask1 mask2 : Val.mat) (B L1 L2 H : nat)
    (Hx1 : Val.has_shape3 x1 B L1 H = true)
    (Hx2 : Val.has_shape3 x2 B L2 H = true)
    (Hm1 : Val.has_shape2 mask1 B L1 = true)
    (Hm2 : Val.has_shape2 mask2 B L2 = true)
    (HB : 0 < B) (HL1 : 0 < L1) (HL2 : 0 < L2) :
  (exists e,
      batch_dot (Val.F exp weight trained) (Val.T3 x1) (Val.T3 x2) false true
      = Ok (Val.T3 e)
      /\ Val.has_shape3 e B L1 L2 = true
      /\ forall b i j, b < B -> i < L1 -> j < L2 ->
           entry3 e b i j = AlignSpec.E x1 x2 H b i j)
  /\ (exists w1,
      weight1_of (Val.F exp weight trained) (Val.T3 x1) (Val.T3 x2) (Val.T2 mask2)
      = Ok (Val.T3 w1)
      /\ Val.has_shape3 w1 B L1 L2 = true
      /\ forall b i j, b < B -> i < L1 -> j < L2 ->
           entry3 w1 b i j = AlignSpec.weight1 exp x1 x2 mask2 L2 H b i j)
  /\ (exists a1 a2,
      _soft_attention_align (Val.F exp weight trained)
        (Val.T3 x1) (Val.T3 x2) (Val.T2 mask1) (Val.T2 mask2)
      = Ok (Val.T3 a1, a2)
      /\ Val.has_shape3 a1 B L1 H = true
      /\ forall b i k, b < B -> i < L1 -> k < H ->
           entry3 a1 b i k = AlignSpec.X1_aligned exp x1 x2 mask2 L2 H b i k).
Proof.
  split; [|split].
  - eexists. split; [|split].
    + now apply (@attention_table x1 x2 B L1 L2 H).
    + apply tab3_shape.
    + intros b i j Hb Hi Hj. now apply entry3_tab3.
  - eexists. split; [|split].
    + now apply (@weight1_table exp weight trained x1 x2 mask2 B L1 L2 H).
    + apply tab3_shape.
    + intros b i j Hb Hi Hj. now apply entry3_tab3.
  - do 2 eexists. split; [|split].
    + now apply (@soft_attention_align_table exp weight trained x1 x2 mask1 mask2 B L1 L2 H).
    + apply tab3_shape.
    + intros b i k Hb Hi Hk. now apply entry3_tab3.
Qed.

Lemma soft_attention_direction1_witness :
  (exists e,
      batch_dot Sample.F (Val.T3 Sample.x1) (Val.T3 Sample.x2) false true
      = Ok (Val.T3 e)
      /\ Val.has_shape3 e 1 3 2 = true
      /\ forall b i j, b < 1 -> i < 3 -> j < 2 ->
           entry3 e b i j = AlignSpec.E Sample.x1 Sample.x2 2 b i j)
  /\ (exists w1,
      weight1_of Sample.F (Val.T3 Sample.x1) (Val.T3 Sample.x2) (Val.T2 Sample.mask2)
      = Ok (Val.T3 w1)
      /\ Val.has_shape3 w1 1 3 2 = true
      /\ forall b i j, b < 1 -> i < 3 -> j < 2 ->
           entry3 w1 b i j
           = AlignSpec.weight1 Sample.exp Sample.x1 Sample.x2 Sample.mask2 2 2 b i j)
  /\ (exists a1 a2,
      _soft_attention_align Sample.F
        (Val.T3 Sample.x1) (Val.T3 Sample.x2) (Val.T2 Sample.mask1) (Val.T2 Sample.mask2)
      = Ok (Val.T3 a1, a2)
      /\ Val.has_shape3 a1 1 3 2 = true
      /\ forall b i k, b < 1 -> i < 3 -> k < 2 ->
           entry3 a1 b i k
           = AlignSpec.X1_aligned Sample.exp Sample.x1 Sample.x2 Sample.mask2 2 2 b i k).
Proof.
  apply (@soft_attention_direction1 Sample.exp Sample.weight Sample.trained
           Sample.x1 Sample.x2 Sample.mask1 Sample.mask2 1 3 2 2);
    solve [reflexivity | lia].
Defined.

(** C3. Direction 2 of the alignment, on values: the weights have shape
    [(B, L1, L2)] and are the softmax over the [L1] axis of the same
    [E = x1 . x2^T] plus [mask1] (the same bias in every column), and the
    second result of [_soft_attention_align] has shape [(B, L2, H)] and is
    [weight2^T . x1]. *)
Theorem soft_attention_direction2
    (exp : Qc -> Qc) (weight : Block -> Val.mat)
    (trained : Block -> Val.tensor -> result Val.tensor)
    (x1 x2 : Val.cube) (mask1 mask2 : Val.mat) (B L1 L2 H : nat)
    (Hx1 : Val.has_shape3 x1 B L1 H = true)
    (Hx2 : Val.has_shape3 x2 B L2 H = true)
    (Hm1 : Val.has_shape2 mask1 B L1 = true)
    (Hm2 : Val.has_shape2 mask2 B L2 = true)
    (HB : 0 < B) (HL1 : 0 < L1) (HL2 : 0 < L2) :
  (exists w2,
      weight2_of (Val.F exp weight trained) (Val.T3 x1) (Val.T3 x2) (Val.T2 mask1)
      = Ok (Val.T3 w2)
      /\ Val.has_shape3 w2 B L1 L2 = true
      /\ forall b i j, b < B -> i < L1 -> j < L2 ->
           entry3 w2 b i j = AlignSpec.weight2 exp x1 x2 mask1 L1 H b i j)
  /\ (exists a1 a2,
      _soft_attention_align (Val.F exp weight trained)
        (Val.T3 x1) (Val.T3 x2) (Val.T2 mask1) (Val.T2 mask2)
      = Ok (a1, Val.T3 a2)
      /\ Val.has_shape3 a2 B L2 H = true
      /\ forall b j k, b < B -> j < L2 -> k < H ->
           entry3 a2 b j k = AlignSpec.X2_aligned exp x1 x2 mask1 L1 H b j k).
Proof.
  split.
  - eexists. split; [|split].
    + now apply (@weight2_table exp weight trained x1 x2 mask1 B L1 L2 H).
    + apply tab3_shape.
    + intros b i j Hb Hi Hj. now apply entry3_tab3.
  - do 2 eexists. split; [|split].
    + now apply (@soft_attention_align_table exp weight trained x1 x2 mask1 mask2 B L1 L2 H).
    + apply tab3_shape.
    + intros b j k Hb Hj Hk. now apply entry3_tab3.
Qed.

Lemma soft_attention_direction2_witness :
  (exists w2,
      weight2_of Sample.F (Val.T3 Sample.x1) (Val.T3 Sample.x2) (Val.T2 Sample.mask1)
      = Ok (Val.T3 w2)
      /\ Val.has_shape3 w2 1 3 2 = true
      /\ forall b i j, b < 1 -> i < 3 -> j < 2 ->
           entry3 w2 b i j
           = AlignSpec.weight2 Sample.exp Sample.x1 Sample.x2 Sample.mask1 3 2 b i j)
  /\ (exists a1 a2,
      _soft_attention_align Sample.F
        (Val.T3 Sample.x1) (Val.T3 Sample.x2) (Val.T2 Sample.mask1) (Val.T2 Sample.mask2)
      = Ok (a1, Val.T3 a2)
      /\ Val.has_shape3 a2 1 2 2 = true
      /\ forall b j k, b < 1 -> j < 2 -> k < 2 ->
           entry3 a2 b j k
           = AlignSpec.X2_aligned Sample.exp Sample.x1 Sample.x2 Sample.mask1 3 2 b j k).
Proof.
  apply (@soft_attention_direction2 Sample.exp Sample.weight Sample.trained
           Sample.x1 Sample.x2 Sample.mask1 Sample.mask2 1 3 2 2);
    solve [reflexivity | lia].
Defined.

(** ** Construction *)

Local Open Scope Z_scope.


Lemma new_ESIM_built (vocab_size nword_dims nhidden_units ndense_units nclasses : Z)
    (dropout : Q) :
  new_ESIM vocab_size nword_dims nhidden_units ndense_units nclasses dropout
  = Ok (built vocab_size nword_dims nhidden_units ndense_units nclasses dropout).
Proof. reflexivity. Qed.

Local Open Scope nat_scope.

Lemma shape_eqb_refl (s : Shape.tensor) : Shape.shape_eqb s s = true.
Proof. unfold Shape.shape_eqb. now destruct (list_eq_dec Nat.eq_dec s s). Qed.

(** ** Shape inference, operator by operator *)

Lemma shape_batch_dot_nt (b m n k : nat) :
  Shape.batch_dot [b; m; k] [b; n; k] false true = Ok [b; m; n].
Proof. unfold Shape.batch_dot. now rewrite !Nat.eqb_refl. Qed.

Lemma shape_batch_dot_nn (b m n k : nat) :
  Shape.batch_dot [b; m; k] [b; k; n] false false = Ok [b; m; n].
Proof. unfold Shape.batch_dot. now rewrite !Nat.eqb_refl. Qed.

Lemma shape_batch_dot_tn (b m n k : nat) :
  Shape.batch_dot [b; k; m] [b; k; n] true false = Ok [b; m; n].
Proof. unfold Shape.batch_dot. now rewrite !Nat.eqb_refl. Qed.

Lemma shape_broadcast_same (b r c : nat) :
  Shape.broadcast [b; r; c] [b; r; c] = Ok [b; r; c].
Proof. unfold Shape.broadcast. simpl. now rewrite !Nat.eqb_refl. Qed.

Lemma shape_broadcast_mid (b r c : nat) :
  Shape.broadcast [b; r; c] [b; 1; c] = Ok [b; r; c].
Proof.
  unfold Shape.broadcast. simpl. rewrite !Nat.eqb_refl. simpl.
  now destruct (r =? 1).
Qed.

Lemma shape_broadcast_last (b r c : nat) :
  Shape.broadcast [b; r; c] [b; r; 1] = Ok [b; r; c].
Proof.
  unfold Shape.broadcast. simpl. rewrite !Nat.eqb_refl.
  now destruct (c =? 1).
Qed.

Lemma shape_concat2 (b r c1 c2 : nat) :
  Shape.concat [[b; r; c1]; [b; r; c2]] (-1) = Ok [b; r; c1 + c2].
Proof.
  unfold Shape.concat. simpl. rewrite !shape_eqb_refl. simpl.
  unfold Shape.set_nth. simpl. now rewrite Nat.add_0_r.
Qed.

Lemma shape_concat3 (b r c1 c2 c3 : nat) :
  Shape.concat [[b; r; c1]; [b; r; c2]; [b; r; c3]] (-1) = Ok [b; r; c1 + c2 + c3].
Proof.
  unfold Shape.concat. simpl. rewrite !shape_eqb_refl. simpl.
  unfold Shape.set_nth. simpl. do 4 f_equal. lia.
Qed.

Lemma shape_concat_flat (b c1 c2 : nat) :
  Shape.concat [[b; c1]; [b; c2]] (-1) = Ok [b; c1 + c2].
Proof.
  unfold Shape.concat. simpl. rewrite !shape_eqb_refl. simpl.
  unfold Shape.set_nth. simpl. now rewrite Nat.add_0_r.
Qed.

Lemma shape_transpose_021 (b r c : nat) :
  Shape.transpose [b; r; c] [0; 2; 1] = Ok [b; c; r].
Proof. reflexivity. Qed.

Lemma shape_squeeze_last (b c : nat) : Shape.squeeze [b; c; 1] (-1) = Ok [b; c].
Proof. reflexivity. Qed.


Lemma shape_attention (B L1 L2 H : nat) :
  _soft_attention_align Shape.F [B; L1; H] [B; L2; H] [B; L1] [B; L2]
  = Ok ([B; L1; H], [B; L2; H]).
Proof.
  unfold _soft_attention_align.
  cbn [batch_dot expand_dims add softmax Shape.F].
  rewrite shape_batch_dot_nt. cbn [bind].
  change (Shape.expand_dims [B; L2] 1) with (Ok (A := Shape.tensor) [B; 1; L2]).
  cbn [bind]. rewrite shape_broadcast_mid. cbn [bind].
  change (Shape.softmax [B; L1; L2] (-1)) with (Ok (A := Shape.tensor) [B; L1; L2]).
  cbn [bind]. rewrite shape_batch_dot_nn. cbn [bind].
  change (Shape.expand_dims [B; L1] 2) with (Ok (A := Shape.tensor) [B; L1; 1]).
  cbn [bind]. rewrite shape_broadcast_last. cbn [bind].
  change (Shape.softmax [B; L1; L2] 1) with (Ok (A := Shape.tensor) [B; L1; L2]).
  cbn [bind]. rewrite shape_batch_dot_tn. reflexivity.
Qed.

Lemma shape_combined (B L H : nat) :
  (s <- _submul Shape.F [B; L; H] [B; L; H] ;;
   concat Shape.F [[B; L; H]; [B; L; H]; s] (-1))%result
  = Ok [B; L; 4 * H].
Proof.
  unfold _submul. cbn [multiply subtract concat Shape.F].
  rewrite shape_broadcast_same. cbn [bind].
  rewrite shape_concat2. cbn [bind]. rewrite shape_concat3.
  do 4 f_equal. lia.
Qed.

Lemma shape_pooling (m : ESIM) (B C W : nat) :
  layer (avg_pool m) = GlobalAvgPool1DL ->
  layer (max_pool m) = GlobalMaxPool1DL ->
  _pooling Shape.F m [B; C; W] = Ok [B; 2 * C].
Proof.
  intros Ha Hm. unfold _pooling. cbn [call squeeze concat Shape.F].
  unfold Shape.call. rewrite Ha, Hm. cbn [bind].
  rewrite shape_squeeze_last. cbn [bind].
  rewrite shape_concat_flat. do 3 f_equal. lia.
Qed.

Lemma shape_locals (v d h nd nc : Z) (dr : Q) (B L1 L2 : nat) :
  hybrid_forward_locals Shape.F (built v d h nd nc dr) [B; L1] [B; L2] [B; L1] [B; L2]
  = Ok (shape_of_locals d h nc B L1 L2).
Proof.
  unfold hybrid_forward_locals, shape_of_locals.
  set (D := Z.to_nat d). set (H := 2 * Z.to_nat h).
  change (call Shape.F (embedding_encoder (built v d h nd nc dr)) [B; L1])
    with (Ok (A := Shape.tensor) [B; L1; D]).
  change (call Shape.F (embedding_encoder (built v d h nd nc dr)) [B; L2])
    with (Ok (A := Shape.tensor) [B; L2; D]).
  cbn [bind].
  change (call Shape.F (batch_norm (built v d h nd nc dr)) [B; L1; D])
    with (Ok (A := Shape.tensor) [B; L1; D]).
  change (call Shape.F (batch_norm (built v d h nd nc dr)) [B; L2; D])
    with (Ok (A := Shape.tensor) [B; L2; D]).
  cbn [bind].
  change (call Shape.F (lstm_encoder1 (built v d h nd nc dr)) [B; L1; D])
    with (Ok (A := Shape.tensor) [B; L1; H]).
  change (call Shape.F (lstm_encoder1 (built v d h nd nc dr)) [B; L2; D])
    with (Ok (A := Shape.tensor) [B; L2; H]).
  cbn [bind].
  rewrite shape_attention. cbn [bind fst snd].
  pose proof (shape_combined B L1 H) as C1.
  pose proof (shape_combined B L2 H) as C2.
  destruct (_submul Shape.F [B; L1; H] [B; L1; H]) as [s1|e]; [|discriminate].
  cbn [bind] in C1 |- *. rewrite C1. cbn [bind].
  destruct (_submul Shape.F [B; L2; H] [B; L2; H]) as [s2|e]; [|discriminate].
  cbn [bind] in C2 |- *. rewrite C2. cbn [bind].
  change (call_seq Shape.F (projection (built v d h nd nc dr)) [B; L1; 4 * H])
    with (Ok (A := Shape.tensor) [B; L1; Z.to_nat h]).
  change (call_seq Shape.F (projection (built v d h nd nc dr)) [B; L2; 4 * H])
    with (Ok (A := Shape.tensor) [B; L2; Z.to_nat h]).
  cbn [bind].
  change (call Shape.F (lstm_encoder2 (built v d h nd nc dr)) [B; L1; Z.to_nat h])
    with (Ok (A := Shape.tensor) [B; L1; H]).
  change (call Shape.F (lstm_encoder2 (built v d h nd nc dr)) [B; L2; Z.to_nat h])
    with (Ok (A := Shape.tensor) [B; L2; H]).
  cbn [bind transpose Shape.F]. rewrite !shape_transpose_021. cbn [bind].
  rewrite !shape_pooling by reflexivity. cbn [bind concat Shape.F].
  rewrite shape_concat_flat. cbn [bind].
  reflexivity.
Qed.

(** ** The forward pass, statement by statement *)


(** One statement of a monadic block: the call returned, or the block
    raised. *)
Ltac step H :=
  match type of H with
  | bind ?c _ = Ok _ =>
      let E := fresh "E" in
      destruct c eqn:E; cbn [bind] in H; [|discriminate H]
  end.

Lemma forward_run_intro (T : Type) (F : Backend T) (self : ESIM)
    (x1 x2 mask1 mask2 : T) (s : Locals T) :
  hybrid_forward_locals F self x1 x2 mask1 mask2 = Ok s ->
  forward_run F self x1 x2 mask1 mask2 s.
Proof.
  intros H. unfold hybrid_forward_locals in H.
  do 6 step H. step H.
  match goal with p : (T * T)%type |- _ => destruct p as [al1 al2] end.
  cbn [fst snd] in H.
  do 14 step H.
  injection H as <-.
  constructor; cbn [x1_embed x2_embed x1_lstm_encode x2_lstm_encode x1_algin
                    x2_algin x1_combined x2_combined x1_compose x2_compose
                    x1_compose_t x2_compose_t x1_agg x2_agg output]; eauto.
Qed.

Lemma hybrid_forward_locals_of (T : Type) (F : Backend T) (self : ESIM)
    (x1 x2 mask1 mask2 out : T) :
  hybrid_forward F self x1 x2 mask1 mask2 = Ok out ->
  exists s, hybrid_forward_locals F self x1 x2 mask1 mask2 = Ok s /\ output s = out.
Proof.
  unfold hybrid_forward. intros H. step H. injection H as <-. now exists a.
Qed.

Lemma call_children_app (T : Type) (F : Backend T) (l1 l2 : list Block) (x : T) :
  call_children F (l1 ++ l2) x
  = (y <- call_children F l1 x ;; call_children F l2 y)%result.
Proof.
  revert x. induction l1 as [|b l1 IH]; intros x; simpl.
  - reflexivity.
  - destruct (call F b x); simpl; auto.
Qed.

(** ** Construction and configuration *)

Local Open Scope Z_scope.


(** C9, as the code has it. The constructor validates nothing: for every
    argument values, valid or not, it returns a model, and the layers of
    the model record the arguments as they were given. *)
Theorem init_never_fails
    (vocab_size nword_dims nhidden_units ndense_units nclasses : Z) (dropout : Q) :
  exists self,
    new_ESIM vocab_size nword_dims nhidden_units ndense_units nclasses dropout = Ok self
    /\ layer (embedding_encoder self) = EmbeddingL vocab_size nword_dims
    /\ layer (lstm_encoder1 self) = LSTML nhidden_units true
    /\ layer (lstm_encoder2 self) = LSTML nhidden_units true
    /\ map layer (children (projection self))
       = [BatchNormL (-1); DropoutL dropout; DenseL nhidden_units (Some relu) false]
    /\ map layer (children (fc_encoder self))
       = [BatchNormL (-1); DropoutL dropout; DenseL ndense_units None true; ELUL;
          BatchNormL (-1); DropoutL dropout; DenseL nclasses None true].
Proof.
  exists (built vocab_size nword_dims nhidden_units ndense_units nclasses dropout).
  repeat split.
Qed.

(** C9, as the specification states it, fails: a model is built with
    every size zero or negative and a dropout of 5/2. *)
Lemma init_invalid_config_accepted :
  ~ (forall (vocab_size nword_dims nhidden_units ndense_units nclasses : Z)
            (dropout : Q),
        valid_config vocab_size nword_dims nhidden_units ndense_units nclasses dropout
        = false ->
        new_ESIM vocab_size nword_dims nhidden_units ndense_units nclasses dropout
        = Err ConfigurationError).
Proof.
  intros H. specialize (H 0 (-1) 0 0 (-3) (5 # 2)%Q eq_refl). discriminate H.
Qed.

Local Open Scope nat_scope.

(** ** The shape of the result *)

(** C4. For a model built from a valid configuration and inputs of shapes
    [(B, L1)], [(B, L2)], [(B, L1)], [(B, L2)] with a positive batch size and
    positive lengths, the forward call returns, and what it returns has
    shape [(B, nclasses)] whatever [L1] and [L2] are. *)
Theorem output_shape
    (vocab_size nword_dims nhidden_units ndense_units nclasses : Z) (dropout : Q)
    (self : ESIM) (B L1 L2 : nat)
    (Hcfg : valid_config vocab_size nword_dims nhidden_units ndense_units nclasses
                         dropout = true)
    (Hself : new_ESIM vocab_size nword_dims nhidden_units ndense_units nclasses dropout
             = Ok self)
    (HB : 0 < B) (HL1 : 0 < L1) (HL2 : 0 < L2) :
  hybrid_forward Shape.F self [B; L1] [B; L2] [B; L1] [B; L2]
  = Ok [B; Z.to_nat nclasses].
Proof.
  rewrite new_ESIM_built in Hself. injection Hself as <-.
  unfold hybrid_forward. now rewrite shape_locals.
Qed.

Lemma output_shape_witness :
  valid_config 100 8 16 32 3 0 = true
  /\ new_ESIM 100 8 16 32 3 0 = Ok (built 100 8 16 32 3 0)
  /\ hybrid_forward Shape.F (built 100 8 16 32 3 0) [2; 5] [2; 7] [2; 5] [2; 7]
     = Ok [2; 3].
Proof.
  split; [reflexivity|]. split; [reflexivity|].
  apply (@output_shape 100 8 16 32 3 0 (built 100 8 16 32 3 0) 2 5 7);
    solve [reflexivity | lia].
Defined.

(** ** Shared layers *)

(** C5. In every forward call that returns, one embedding block and one
    normalisation block produce both [x1_embed] and [x2_embed], one
    recurrent block ([lstm_encoder1]) produces both encodings and one
    ([lstm_encoder2]) both compositions; in a model that [__init__] built
    these are four different objects, the two recurrent ones with equal
    hyper-parameters but parameters of their own. *)
Theorem shared_layers (T : Type) (F : Backend T)
    (vocab_size nword_dims nhidden_units ndense_units nclasses : Z) (dropout : Q)
    (self : ESIM) (x1 x2 mask1 mask2 : T) (s : Locals T)
    (Hself : new_ESIM vocab_size nword_dims nhidden_units ndense_units nclasses dropout
             = Ok self)
    (Hrun : hybrid_forward_locals F self x1 x2 mask1 mask2 = Ok s) :
  (exists e1 e2,
      call F (embedding_encoder self) x1 = Ok e1
      /\ call F (embedding_encoder self) x2 = Ok e2
      /\ call F (batch_norm self) e1 = Ok (x1_embed s)
      /\ call F (batch_norm self) e2 = Ok (x2_embed s))
  /\ call F (lstm_encoder1 self) (x1_embed s) = Ok (x1_lstm_encode s)
  /\ call F (lstm_encoder1 self) (x2_embed s) = Ok (x2_lstm_encode s)
  /\ (exists p1 p2,
      call_seq F (projection self) (x1_combined s) = Ok p1
      /\ call_seq F (projection self) (x2_combined s) = Ok p2
      /\ call F (lstm_encoder2 self) p1 = Ok (x1_compose s)
      /\ call F (lstm_encoder2 self) p2 = Ok (x2_compose s))
  /\ NoDup [uid (embedding_encoder self); uid (batch_norm self);
            uid (lstm_encoder1 self); uid (lstm_encoder2 self)]
  /\ layer (lstm_encoder1 self) = layer (lstm_encoder2 self).
Proof.
  apply forward_run_intro in Hrun.
  destruct Hrun as [[e1 [E1 N1]] [e2 [E2 N2]] R1 R2 _ _ _ [p1 [P1 C1]] [p2 [P2 C2]]
                    _ _ _ _ _].
  split; [now exists e1, e2|]. do 2 (split; [assumption|]).
  split; [now exists p1, p2|].
  rewrite new_ESIM_built in Hself. injection Hself as <-.
  split; [|reflexivity]. cbn.
  repeat constructor; cbn; intuition discriminate.
Qed.

Lemma shared_layers_witness :
  new_ESIM 100 8 16 32 3 0 = Ok (built 100 8 16 32 3 0)
  /\ hybrid_forward_locals Shape.F (built 100 8 16 32 3 0) [2; 5] [2; 7] [2; 5] [2; 7]
     = Ok (shape_of_locals 8 16 3 2 5 7)
  /\ NoDup [uid (embedding_encoder (built 100 8 16 32 3 0));
            uid (batch_norm (built 100 8 16 32 3 0));
            uid (lstm_encoder1 (built 100 8 16 32 3 0));
            uid (lstm_encoder2 (built 100 8 16 32 3 0))].
Proof.
  split; [reflexivity|]. split; [reflexivity|].
  apply (@shared_layers _ Shape.F 100 8 16 32 3 0 (built 100 8 16 32 3 0)
           [2; 5] [2; 7] [2; 5] [2; 7] (shape_of_locals 8 16 3 2 5 7));
    reflexivity.
Defined.

(** ** The classifier head *)

(** C6. The classifier of a model that [__init__] built is, in this order,
    normalisation, dropout, dense to [ndense_units], ELU, normalisation,
    dropout and dense to [nclasses] without activation; a forward call
    applies it to the concatenation of the two pooled aggregates and
    returns what the last dense layer returned, unchanged. *)
Theorem classifier_head (T : Type) (F : Backend T)
    (vocab_size nword_dims nhidden_units ndense_units nclasses : Z) (dropout : Q)
    (self : ESIM) (x1 x2 mask1 mask2 out : T)
    (Hself : new_ESIM vocab_size nword_dims nhidden_units ndense_units nclasses dropout
             = Ok self)
    (Hrun : hybrid_forward F self x1 x2 mask1 mask2 = Ok out) :
  map layer (children (fc_encoder self))
  = [BatchNormL (-1); DropoutL dropout; DenseL ndense_units None true; ELUL;
     BatchNormL (-1); DropoutL dropout; DenseL nclasses None true]
  /\ exists s c body dense h,
       hybrid_forward_locals F self x1 x2 mask1 mask2 = Ok s
       /\ concat F [x1_agg s; x2_agg s] (-1) = Ok c
       /\ children (fc_encoder self) = body ++ [dense]
       /\ layer dense = DenseL nclasses None true
       /\ call_children F body c = Ok h
       /\ call F dense h = Ok out.
Proof.
  apply hybrid_forward_locals_of in Hrun. destruct Hrun as [s [Hs <-]].
  pose proof (forward_run_intro _ _ _ _ _ _ Hs) as R.
  destruct (run_classify R) as [c [Hc Hfc]].
  rewrite new_ESIM_built in Hself. injection Hself as <-.
  split; [reflexivity|].
  unfold call_seq in Hfc.
  change (children (fc_encoder
            (built vocab_size nword_dims nhidden_units ndense_units nclasses dropout)))
    with ([mkBlock 9 (BatchNormL (-1)); mkBlock 10 (DropoutL dropout);
           mkBlock 11 (DenseL ndense_units None true); mkBlock 12 ELUL;
           mkBlock 13 (BatchNormL (-1)); mkBlock 14 (DropoutL dropout)]
          ++ [mkBlock 15 (DenseL nclasses None true)]) in Hfc |- *.
  rewrite call_children_app in Hfc.
  destruct (call_children F _ c) as [h|e] eqn:Hbody in Hfc; [|discriminate Hfc].
  cbn [bind call_children] in Hfc.
  destruct (call F _ h) as [o|e] eqn:Hd in Hfc; [|discriminate Hfc].
  cbn [bind] in Hfc. injection Hfc as <-.
  exists s, c. do 2 eexists. exists h.
  repeat split; eauto.
Qed.

Lemma classifier_head_witness :
  new_ESIM 100 8 16 32 3 0 = Ok (built 100 8 16 32 3 0)
  /\ hybrid_forward Shape.F (built 100 8 16 32 3 0) [2; 5] [2; 7] [2; 5] [2; 7]
     = Ok [2; 3]
  /\ map layer (children (fc_encoder (built 100 8 16 32 3 0)))
     = [BatchNormL (-1); DropoutL 0; DenseL 32 None true; ELUL;
        BatchNormL (-1); DropoutL 0; DenseL 3 None true].
Proof.
  split; [reflexivity|]. split; [reflexivity|].
  apply (@classifier_head _ Shape.F 100 8 16 32 3 0 (built 100 8 16 32 3 0)
           [2; 5] [2; 7] [2; 5] [2; 7] [2; 3]); reflexivity.
Defined.

(** ** Pooling on values *)

Lemma of_nat_S (n : nat) :
  Val.of_nat (S n) = Qcplus (Val.of_nat n) (Q2Qc 1).
Proof.
  unfold Val.of_nat. apply Qc_is_canon. unfold Qcplus.
  cbn [this Q2Qc]. rewrite !Qred_correct.
  rewrite Nat2Z.inj_succ. unfold Z.succ. rewrite inject_Z_plus. reflexivity.
Qed.

Lemma of_nat_nonzero (n : nat) : 0 < n -> Val.of_nat n <> Q2Qc 0.
Proof.
  intros Hn E. unfold Val.of_nat in E. apply Q2Qc_eq_iff in E.
  unfold Qeq in E. simpl in E. lia.
Qed.

Lemma big_sum_const (n : nat) (v : Qc) :
  big_sum n (fun _ => v) = Qcmult (Val.of_nat n) v.
Proof.
  induction n as [|n IH].
  - unfold big_sum, tab, Val.of_nat, Val.vsum, Val.zero. simpl.
    change (Q2Qc (inject_Z 0)) with (Q2Qc 0). ring.
  - unfold big_sum in *. rewrite tab_S. cbn [Val.vsum fold_right].
    change (fold_right Qcplus Val.zero (tab n (fun _ => v)))
      with (Val.vsum (tab n (fun _ => v))).
    rewrite IH, of_nat_S. change (Q2Qc 1) with 1%Qc. ring.
Qed.

Lemma avg_const (n : nat) (v : Qc) :
  0 < n -> Qcdiv (big_sum n (fun _ => v)) (Val.of_nat n) = v.
Proof.
  intros Hn. rewrite big_sum_const.
  pose proof (of_nat_nonzero Hn) as Hnz. change (Q2Qc 0) with 0%Qc in Hnz.
  field. exact Hnz.
Qed.

Lemma Qcmax_idem (v : Qc) : Val.Qcmax v v = v.
Proof. unfold Val.Qcmax. now destruct (Qccompare v v). Qed.

Lemma fold_max_const (n : nat) (v : Qc) :
  fold_left Val.Qcmax (tab n (fun _ => v)) v = v.
Proof.
  induction n as [|n IH]; [reflexivity|].
  rewrite tab_S. cbn [fold_left]. now rewrite Qcmax_idem.
Qed.

Lemma vmax_const (n : nat) (v : Qc) :
  0 < n -> Val.vmax (tab n (fun _ => v)) = v.
Proof.
  destruct n as [|n]; [lia|]. intros _. rewrite tab_S. cbn [Val.vmax].
  apply fold_max_const.
Qed.

Section ValPooling.
Variable exp : Qc -> Qc.
Variable weight : Block -> Val.mat.
Variable trained : Block -> Val.tensor -> result Val.tensor.

Let VF : Backend Val.tensor := Val.F exp weight trained.



Lemma transpose_table (b r c : nat) (f : nat -> nat -> nat -> Qc) :
  0 < b -> 0 < r ->
  Val.transpose (Val.T3 (tab3 b r c f)) [0; 2; 1]
  = Ok (Val.T3 (tab3 b c r (fun s j i => f s i j))).
Proof.
  intros Hb Hr. unfold Val.transpose. cube_dims. simpl. do 2 f_equal.
  unfold tab3. rewrite tab_map. apply tab_ext. intros s Hs.
  now apply mat_transpose_tab2.
Qed.

Lemma avg_pool_table (blk : Block) (b c w : nat) (g : nat -> nat -> nat -> Qc) :
  layer blk = GlobalAvgPool1DL -> 0 < b -> 0 < c -> 0 < w ->
  Val.call weight trained blk (Val.T3 (tab3 b c w g))
  = Ok (Val.T3 (tab3 b c 1 (fun s j _ =>
                              Qcdiv (big_sum w (g s j)) (Val.of_nat w)))).
Proof.
  intros Hl Hb Hc Hw. unfold Val.call, Val.dim2. rewrite Hl. cube_dims.
  replace (0 <? w) with true by (symmetry; now apply Nat.ltb_lt).
  simpl. do 2 f_equal.
  unfold Val.global_avg_pool, tab3, tab2. rewrite tab_map. apply tab_ext. intros s Hs.
  rewrite tab_map. apply tab_ext. intros j Hj. now rewrite tab_length.
Qed.

Lemma max_pool_table (blk : Block) (b c w : nat) (g : nat -> nat -> nat -> Qc) :
  layer blk = GlobalMaxPool1DL -> 0 < b -> 0 < c -> 0 < w ->
  Val.call weight trained blk (Val.T3 (tab3 b c w g))
  = Ok (Val.T3 (tab3 b c 1 (fun s j _ => Val.vmax (tab w (g s j))))).
Proof.
  intros Hl Hb Hc Hw. unfold Val.call, Val.dim2. rewrite Hl. cube_dims.
  replace (0 <? w) with true by (symmetry; now apply Nat.ltb_lt).
  simpl. do 2 f_equal.
  unfold Val.global_max_pool, tab3, tab2. rewrite tab_map. apply tab_ext. intros s Hs.
  rewrite tab_map. reflexivity.
Qed.

Lemma squeeze_table (b c : nat) (g : nat -> nat -> nat -> Qc) :
  0 < b -> 0 < c ->
  Val.squeeze (Val.T3 (tab3 b c 1 g)) (-1)
  = Ok (Val.T2 (tab2 b c (fun s j => g s j 0))).
Proof.
  intros Hb Hc. unfold Val.squeeze, Val.dim2. cube_dims. simpl. do 2 f_equal.
  unfold tab3, tab2. rewrite tab_map. apply tab_ext. intros s Hs.
  rewrite tab_map. reflexivity.
Qed.

Lemma concat_flat_table (b c c' : nat) (f g : nat -> nat -> Qc) :
  0 < b ->
  Val.concat [Val.T2 (tab2 b c f); Val.T2 (tab2 b c' g)] (-1)
  = Ok (Val.T2 (tab b (fun s => tab c (f s) ++ tab c' (g s)))).
Proof.
  intros Hb. unfold Val.concat. cbn [Val.all_T2 option_map].
  destruct (@shape2_mat _ _ _ _ (tab2_shape b c f) Hb) as (M1 & R1 & _).
  destruct (@shape2_mat _ _ _ _ (tab2_shape b c' g) Hb) as (M2 & R2 & _).
  cbn [forallb]. rewrite M1, M2, R1, R2, Nat.eqb_refl. simpl. do 2 f_equal.
  unfold tab2. apply tab_map2.
Qed.

Lemma pooling_table (self : ESIM) (b c w : nat) (g : nat -> nat -> nat -> Qc) :
  layer (avg_pool self) = GlobalAvgPool1DL ->
  layer (max_pool self) = GlobalMaxPool1DL ->
  0 < b -> 0 < c -> 0 < w ->
  _pooling VF self (Val.T3 (tab3 b c w g))
  = Ok (Val.T2 (tab b (fun s =>
          tab c (fun j => Qcdiv (big_sum w (g s j)) (Val.of_nat w))
          ++ tab c (fun j => Val.vmax (tab w (g s j)))))).
Proof.
  intros Ha Hm Hb Hc Hw. unfold _pooling, VF.
  cbn [call squeeze concat Val.F].
  rewrite avg_pool_table by assumption. cbn [bind].
  rewrite squeeze_table by assumption. cbn [bind].
  rewrite max_pool_table by assumption. cbn [bind].
  rewrite squeeze_table by assumption. cbn [bind].
  now rewrite concat_flat_table.
Qed.

(** Transposition to channel-major and pooling, as [hybrid_forward] does. *)
Lemma aggregate_table (self : ESIM) (x : Val.cube) (B L C : nat) :
  layer (avg_pool self) = GlobalAvgPool1DL ->
  layer (max_pool self) = GlobalMaxPool1DL ->
  Val.has_shape3 x B L C = true -> 0 < B -> 0 < L -> 0 < C ->
  (xt <- transpose VF (Val.T3 x) [0; 2; 1] ;; _pooling VF self xt)%result
  = Ok (Val.T2 (tab B (fun b => tab C (time_avg x L b) ++ tab C (time_max x L b)))).
Proof.
  intros Ha Hm Hx HB HL HC. unfold VF at 1. cbn [transpose Val.F].
  rewrite (@shape3_tab _ _ _ _ Hx) at 1.
  rewrite transpose_table by assumption. cbn [bind].
  now rewrite pooling_table.
Qed.

End ValPooling.

(** C7. The pooling of [hybrid_forward] on values: a representation [x] of
    shape [(B, L, C)] is made channel-major and [_pooling] returns, for every
    sentence, the averages of the [C] channels over all [L] time steps
    followed by their maxima over all [L] time steps, a vector of width
    [2 * C]; when every time step of sentence [b] is the same vector
    [row2 cs b], the aggregate of [b] is that vector twice. *)
Theorem pooling_aggregate
    (exp : Qc -> Qc) (weight : Block -> Val.mat)
    (trained : Block -> Val.tensor -> result Val.tensor)
    (vocab_size nword_dims nhidden_units ndense_units nclasses : Z) (dropout : Q)
    (self : ESIM) (x : Val.cube) (B L C : nat)
    (Hself : new_ESIM vocab_size nword_dims nhidden_units ndense_units nclasses dropout
             = Ok self)
    (Hx : Val.has_shape3 x B L C = true)
    (HB : 0 < B) (HL : 0 < L) (HC : 0 < C) :
  exists agg,
    (xt <- transpose (Val.F exp weight trained) (Val.T3 x) [0; 2; 1] ;;
     _pooling (Val.F exp weight trained) self xt)%result
    = Ok (Val.T2 agg)
    /\ Val.has_shape2 agg B (2 * C) = true
    /\ (forall b, b < B ->
          row2 agg b = tab C (time_avg x L b) ++ tab C (time_max x L b))
    /\ (forall cs : Val.mat,
          length cs = B ->
          (forall b t, b < B -> t < L -> row3 x b t = row2 cs b) ->
          agg = map (fun v => v ++ v) cs).
Proof.
  rewrite new_ESIM_built in Hself. injection Hself as <-.
  eexists. split; [|split; [|split]].
  - now apply (@aggregate_table exp weight trained _ x B L C).
  - apply has_shape2_spec. split; [apply tab_length|].
    intros v Hv. unfold tab in Hv at 1. apply in_map_iff in Hv.
    destruct Hv as [b [<- _]]. rewrite length_app, !tab_length. lia.
  - intros b Hb. unfold row2. now rewrite tab_nth.
  - intros cs Hlen Hconst.
    rewrite (tab_of_list [] cs) at 1. rewrite Hlen, tab_map.
    apply tab_ext. intros b Hb. fold (row2 cs b).
    assert (Hrow : row2 cs b = tab C (fun c => nth c (row2 cs b) Val.zero)).
    { rewrite (tab_of_list Val.zero (row2 cs b)) at 1.
      rewrite <- (Hconst b 0%nat Hb HL) at 1.
      now rewrite (shape3_row_length _ _ Hx Hb HL). }
    assert (Hentry : forall t c, t < L -> entry3 x b t c = nth c (row2 cs b) Val.zero).
    { intros t c Ht. unfold entry3. now rewrite Hconst. }
    f_equal.
    + rewrite Hrow at 1. apply tab_ext. intros c Hc. unfold time_avg.
      rewrite (@big_sum_ext L _ (fun _ => nth c (row2 cs b) Val.zero))
        by (intros t Ht; now apply Hentry).
      now apply avg_const.
    + rewrite Hrow at 1. apply tab_ext. intros c Hc. unfold time_max.
      rewrite (@tab_ext _ L _ (fun _ => nth c (row2 cs b) Val.zero))
        by (intros t Ht; now apply Hentry).
      now apply vmax_const.
Qed.

Lemma pooling_aggregate_witness :
  new_ESIM 4 2 1 1 1 0 = Ok Sample.model
  /\ Val.has_shape3 Sample.xc 1 3 2 = true
  /\ exists agg,
    (xt <- transpose Sample.F (Val.T3 Sample.xc) [0; 2; 1] ;;
     _pooling Sample.F Sample.model xt)%result
    = Ok (Val.T2 agg)
    /\ Val.has_shape2 agg 1 (2 * 2) = true
    /\ (forall b, b < 1 ->
          row2 agg b = tab 2 (time_avg Sample.xc 3 b) ++ tab 2 (time_max Sample.xc 3 b))
    /\ (forall cs : Val.mat,
          length cs = 1 ->
          (forall b t, b < 1 -> t < 3 -> row3 Sample.xc b t = row2 cs b) ->
          agg = map (fun v => v ++ v) cs).
Proof.
  split; [reflexivity|]. split; [reflexivity|].
  apply (@pooling_aggregate Sample.exp Sample.weight Sample.trained
           4 2 1 1 1 0 Sample.model Sample.xc 1 3 2);
    solve [reflexivity | lia].
Defined.

(** ** Where the masks enter *)

(** Two forward calls that differ in their masks only, on any backend:
    the embeddings and the first encodings are the same, and so is
    everything else as soon as the two alignments are. *)
Lemma masks_noninterference (T : Type) (F : Backend T) (self : ESIM)
    (x1 x2 mask1 mask2 mask1' mask2' : T) (s s' : Locals T) :
  hybrid_forward_locals F self x1 x2 mask1 mask2 = Ok s ->
  hybrid_forward_locals F self x1 x2 mask1' mask2' = Ok s' ->
  (x1_embed s = x1_embed s' /\ x2_embed s = x2_embed s'
   /\ x1_lstm_encode s = x1_lstm_encode s' /\ x2_lstm_encode s = x2_lstm_encode s')
  /\ (x1_algin s = x1_algin s' -> x2_algin s = x2_algin s' -> s = s').
Proof.
  intros H H'. apply forward_run_intro in H, H'.
  destruct s, s'. destruct H, H'.
  cbn [x1_embed x2_embed x1_lstm_encode x2_lstm_encode x1_algin
       x2_algin x1_combined x2_combined x1_compose x2_compose
       x1_compose_t x2_compose_t x1_agg x2_agg output] in *.
  repeat match goal with
         | H : exists _, _ /\ _ |- _ => destruct H as [? [? ?]]
         end.
  assert (Hpre : (x1_embed0 = x1_embed1 /\ x2_embed0 = x2_embed1)
                 /\ x1_lstm_encode0 = x1_lstm_encode1
                 /\ x2_lstm_encode0 = x2_lstm_encode1).
  { repeat match goal with
           | H1 : ?t = Ok ?a, H2 : ?t = Ok ?b |- _ =>
               assert (a = b) by congruence; subst b; clear H2
           end.
    auto. }
  destruct Hpre as [[-> ->] [-> ->]].
  split; [auto|]. intros -> ->.
  repeat match goal with
         | H1 : ?t = Ok ?a, H2 : ?t = Ok ?b |- _ =>
             assert (a = b) by congruence; subst b; clear H2
         end.
  reflexivity.
Qed.

(** C10. On values, for a model that [__init__] built and two forward
    calls on the same token ids under any two pairs of masks: the
    embeddings and the first encodings do not depend on the masks, and the
    result does not either once the two alignments agree; and each pooled
    aggregate holds, for every channel, the sum over all the time steps of
    the composed representation, padded ones included, divided by the
    full length. *)
Theorem masks_only_in_attention
    (exp : Qc -> Qc) (weight : Block -> Val.mat)
    (trained : Block -> Val.tensor -> result Val.tensor)
    (vocab_size nword_dims nhidden_units ndense_units nclasses : Z) (dropout : Q)
    (self : ESIM) (x1 x2 mask1 mask2 mask1' mask2' : Val.tensor)
    (s s' : Locals Val.tensor) (c1 c2 : Val.cube) (B L1 L2 C : nat)
    (Hself : new_ESIM vocab_size nword_dims nhidden_units ndense_units nclasses dropout
             = Ok self)
    (Hrun : hybrid_forward_locals (Val.F exp weight trained) self x1 x2 mask1 mask2
            = Ok s)
    (Hrun' : hybrid_forward_locals (Val.F exp weight trained) self x1 x2 mask1' mask2'
             = Ok s')
    (Hc1 : x1_compose s = Val.T3 c1) (Hc2 : x2_compose s = Val.T3 c2)
    (Hs1 : Val.has_shape3 c1 B L1 C = true)
    (Hs2 : Val.has_shape3 c2 B L2 C = true)
    (HB : 0 < B) (HL1 : 0 < L1) (HL2 : 0 < L2) (HC : 0 < C) :
  (x1_embed s = x1_embed s' /\ x2_embed s = x2_embed s'
   /\ x1_lstm_encode s = x1_lstm_encode s' /\ x2_lstm_encode s = x2_lstm_encode s')
  /\ (x1_algin s = x1_algin s' -> x2_algin s = x2_algin s' -> output s = output s')
  /\ (exists agg1 agg2,
        x1_agg s = Val.T2 agg1 /\ x2_agg s = Val.T2 agg2
        /\ forall b c, b < B -> c < C ->
             entry2 agg1 b c
             = Qcdiv (big_sum L1 (fun t => entry3 c1 b t c)) (Val.of_nat L1)
             /\ entry2 agg2 b c
                = Qcdiv (big_sum L2 (fun t => entry3 c2 b t c)) (Val.of_nat L2)).
Proof.
  destruct (masks_noninterference _ _ _ _ _ _ _ _ Hrun Hrun') as [Hpre Hpost].
  split; [exact Hpre|]. split; [intros E1 E2; now rewrite (Hpost E1 E2)|].
  pose proof (forward_run_intro _ _ _ _ _ _ Hrun) as R.
  rewrite new_ESIM_built in Hself. injection Hself as <-.
  set (self := built vocab_size nword_dims nhidden_units ndense_units nclasses
                    dropout) in *.
  pose proof (@aggregate_table exp weight trained self c1 B L1 C
                eq_refl eq_refl Hs1 HB HL1 HC) as A1.
  pose proof (@aggregate_table exp weight trained self c2 B L2 C
                eq_refl eq_refl Hs2 HB HL2 HC) as A2.
  rewrite <- Hc1 in A1. rewrite <- Hc2 in A2.
  rewrite (run_transpose1 R) in A1. rewrite (run_transpose2 R) in A2.
  cbn [bind] in A1, A2.
  rewrite (run_pool1 R) in A1. rewrite (run_pool2 R) in A2.
  injection A1 as A1. injection A2 as A2.
  do 2 eexists. split; [exact A1|]. split; [exact A2|].
  intros b c Hb Hc. unfold entry2, row2. rewrite !tab_nth by assumption.
  rewrite !app_nth1 by now rewrite tab_length.
  rewrite !tab_nth by assumption. split; reflexivity.
Qed.

Lemma masks_only_in_attention_witness :
  new_ESIM 4 2 1 1 1 0 = Ok Sample.model
  /\ hybrid_forward_locals Sample.F Sample.model
       (Val.Ids Sample.ids1) (Val.Ids Sample.ids2)
       (Val.T2 Sample.mask1) (Val.T2 Sample.mask2) = Ok Sample.s
  /\ hybrid_forward_locals Sample.F Sample.model
       (Val.Ids Sample.ids1) (Val.Ids Sample.ids2)
       (Val.T2 Sample.mask1') (Val.T2 Sample.mask2) = Ok Sample.s'
  /\ Val.has_shape3 Sample.compose1 1 3 8 = true
  /\ Val.has_shape3 Sample.compose2 1 2 8 = true
  /\ x1_lstm_encode Sample.s = x1_lstm_encode Sample.s'
  /\ exists agg1 agg2,
        x1_agg Sample.s = Val.T2 agg1 /\ x2_agg Sample.s = Val.T2 agg2
        /\ forall b c, b < 1 -> c < 8 ->
             entry2 agg1 b c
             = Qcdiv (big_sum 3 (fun t => entry3 Sample.compose1 b t c)) (Val.of_nat 3)
             /\ entry2 agg2 b c
                = Qcdiv (big_sum 2 (fun t => entry3 Sample.compose2 b t c)) (Val.of_nat 2).
Proof.
  split; [reflexivity|]. split; [vm_compute; reflexivity|].
  split; [vm_compute; reflexivity|].
  split; [reflexivity|]. split; [reflexivity|].
  destruct (@masks_only_in_attention Sample.exp Sample.weight Sample.trained
              4 2 1 1 1 0 Sample.model
              (Val.Ids Sample.ids1) (Val.Ids Sample.ids2)
              (Val.T2 Sample.mask1) (Val.T2 Sample.mask2)
              (Val.T2 Sample.mask1') (Val.T2 Sample.mask2)
              Sample.s Sample.s' Sample.compose1 Sample.compose2 1 3 2 8)
    as [[_ [_ [E _]]] [_ P]];
    try solve [reflexivity | vm_compute; reflexivity | lia].
  split; [exact E | exact P].
Defined.

(** ** Local inference composition *)

Section ValCompose.
Variable exp : Qc -> Qc.
Variable weight : Block -> Val.mat.
Variable trained : Block -> Val.tensor -> result Val.tensor.

Let VF : Backend Val.tensor := Val.F exp weight trained.

(** A tensor given by its rows. *)
Local Abbreviation rt b r f := (tab b (fun n => tab r (f n))).

Lemma rt_cube (b r c : nat) (f : nat -> nat -> Val.vec) :
  0 < b -> 0 < r -> (forall n i, n < b -> i < r -> length (f n i) = c) ->
  Val.is_cube (rt b r f) = true /\ Val.dim0 (rt b r f) = b /\ Val.dim1 (rt b r f) = r.
Proof.
  intros Hb Hr Hf.
  destruct (@shape3_cube _ (rt b r f) b r c) as (H1 & H2 & H3 & _); auto.
  now apply rows_shape.
Qed.

Lemma rt_map2_app (b r : nat) (f g : nat -> nat -> Val.vec) :
  Val.map2 (Val.map2 (@app Qc)) (rt b r f) (rt b r g)
  = rt b r (fun n i => f n i ++ g n i).
Proof.
  rewrite tab_map2. apply tab_ext. intros n Hn. apply tab_map2.
Qed.

Lemma concat_rows2 (b r c1 c2 : nat) (f g : nat -> nat -> Val.vec) :
  0 < b -> 0 < r ->
  (forall n i, n < b -> i < r -> length (f n i) = c1) ->
  (forall n i, n < b -> i < r -> length (g n i) = c2) ->
  Val.concat [Val.T3 (rt b r f); Val.T3 (rt b r g)] (-1)
  = Ok (Val.T3 (rt b r (fun n i => f n i ++ g n i))).
Proof.
  intros Hb Hr Hf Hg. unfold Val.concat. cbn [Val.all_T3 option_map].
  destruct (@rt_cube b r c1 f Hb Hr Hf) as (F1 & F2 & F3).
  destruct (@rt_cube b r c2 g Hb Hr Hg) as (G1 & G2 & G3).
  cbn [forallb]. rewrite F1, G1, F2, G2, F3, G3, !Nat.eqb_refl.
  cbn [negb orb andb Z.eqb Pos.eqb fold_left]. now rewrite rt_map2_app.
Qed.

Lemma concat_rows3 (b r c1 c2 c3 : nat) (f g h : nat -> nat -> Val.vec) :
  0 < b -> 0 < r ->
  (forall n i, n < b -> i < r -> length (f n i) = c1) ->
  (forall n i, n < b -> i < r -> length (g n i) = c2) ->
  (forall n i, n < b -> i < r -> length (h n i) = c3) ->
  Val.concat [Val.T3 (rt b r f); Val.T3 (rt b r g); Val.T3 (rt b r h)] (-1)
  = Ok (Val.T3 (rt b r (fun n i => (f n i ++ g n i) ++ h n i))).
Proof.
  intros Hb Hr Hf Hg Hh. unfold Val.concat. cbn [Val.all_T3 option_map].
  destruct (@rt_cube b r c1 f Hb Hr Hf) as (F1 & F2 & F3).
  destruct (@rt_cube b r c2 g Hb Hr Hg) as (G1 & G2 & G3).
  destruct (@rt_cube b r c3 h Hb Hr Hh) as (H1 & H2 & H3).
  cbn [forallb]. rewrite F1, G1, H1, F2, G2, H2, F3, G3, H3, !Nat.eqb_refl.
  cbn [negb orb andb Z.eqb Pos.eqb fold_left]. now rewrite !rt_map2_app.
Qed.


Lemma combined_table (x a : Val.cube) (B L H : nat) :
  Val.has_shape3 x B L H = true -> Val.has_shape3 a B L H = true ->
  0 < B -> 0 < L ->
  (s <- _submul VF (Val.T3 x) (Val.T3 a) ;;
   concat VF [Val.T3 x; Val.T3 a; s] (-1))%result
  = Ok (Val.T3 (tab B (fun b => tab L (fun i =>
                  combined_row (row3 x b i) (row3 a b i))))).
Proof.
  intros Hx Ha HB HL.
  assert (Rx : forall b i, b < B -> i < L -> row3 x b i = tab H (entry3 x b i)).
  { intros b i Hb Hi. unfold entry3.
    rewrite (tab_of_list Val.zero (row3 x b i)) at 1.
    now rewrite (shape3_row_length _ _ Hx Hb Hi). }
  assert (Ra : forall b i, b < B -> i < L -> row3 a b i = tab H (entry3 a b i)).
  { intros b i Hb Hi. unfold entry3.
    rewrite (tab_of_list Val.zero (row3 a b i)) at 1.
    now rewrite (shape3_row_length _ _ Ha Hb Hi). }
  unfold _submul, VF. cbn [multiply subtract concat Val.F].
  unfold Val.multiply, Val.subtract.
  rewrite (@shape3_tab _ _ _ _ Hx) at 1. rewrite (@shape3_tab _ _ _ _ Ha) at 1.
  rewrite binary_same by assumption. cbn [bind].
  rewrite (@shape3_tab _ _ _ _ Hx) at 1. rewrite (@shape3_tab _ _ _ _ Ha) at 1.
  rewrite binary_same by assumption. cbn [bind].
  unfold tab3 at 1 2, tab2.
  rewrite (@concat_rows2 B L H H) by (auto; intros; apply tab_length).
  cbn [bind].
  rewrite (@shape3_rows _ _ _ _ Hx) at 1. rewrite (@shape3_rows _ _ _ _ Ha) at 1.
  rewrite (@concat_rows3 B L H H (H + H));
    try assumption;
    try (intros; now apply shape3_row_length with (b := B) (r := L));
    try (intros; rewrite length_app, !tab_length; reflexivity).
  do 2 f_equal. apply tab_ext. intros b Hb. apply tab_ext. intros i Hi.
  unfold combined_row. rewrite <- app_assoc. do 2 f_equal.
  rewrite (Rx b i Hb Hi), (Ra b i Hb Hi), !tab_map2.
  f_equal; apply tab_ext; intros j Hj; now rewrite !tab_nth.
Qed.

End ValCompose.

(** C1, as the code has it. On values, for an encoding [x] and its aligned
    counterpart [a], both of shape [(B, L, H)], every row of the combined
    tensor is the row of [x], the row of [a], their elementwise product and
    their elementwise difference, in this order: its width is four times
    [H].  On shapes, for a model built from a valid configuration, the
    combined tensors are four times as wide as the encodings and the
    projection block returns them with width [nhidden_units]. *)
Theorem composition_width
    (exp : Qc -> Qc) (weight : Block -> Val.mat)
    (trained : Block -> Val.tensor -> result Val.tensor)
    (x a : Val.cube) (B L H : nat)
    (vocab_size nword_dims nhidden_units ndense_units nclasses : Z) (dropout : Q)
    (self : ESIM) (L1 L2 : nat)
    (Hx : Val.has_shape3 x B L H = true)
    (Ha : Val.has_shape3 a B L H = true)
    (HB : 0 < B) (HL : 0 < L)
    (Hcfg : valid_config vocab_size nword_dims nhidden_units ndense_units nclasses
                         dropout = true)
    (Hself : new_ESIM vocab_size nword_dims nhidden_units ndense_units nclasses dropout
             = Ok self)
    (HL1 : 0 < L1) (HL2 : 0 < L2) :
  (exists c,
      (s <- _submul (Val.F exp weight trained) (Val.T3 x) (Val.T3 a) ;;
       concat (Val.F exp weight trained) [Val.T3 x; Val.T3 a; s] (-1))%result
      = Ok (Val.T3 c)
      /\ Val.has_shape3 c B L (4 * H) = true
      /\ forall b i, b < B -> i < L ->
           row3 c b i
           = row3 x b i ++ row3 a b i
             ++ Val.map2 Qcmult (row3 x b i) (row3 a b i)
             ++ Val.map2 Qcminus (row3 x b i) (row3 a b i))
  /\ (exists s W,
      hybrid_forward_locals Shape.F self [B; L1] [B; L2] [B; L1] [B; L2] = Ok s
      /\ x1_lstm_encode s = [B; L1; W] /\ x1_algin s = [B; L1; W]
      /\ x1_combined s = [B; L1; 4 * W]
      /\ x2_lstm_encode s = [B; L2; W] /\ x2_algin s = [B; L2; W]
      /\ x2_combined s = [B; L2; 4 * W]
      /\ call_seq Shape.F (projection self) (x1_combined s)
         = Ok [B; L1; Z.to_nat nhidden_units]
      /\ call_seq Shape.F (projection self) (x2_combined s)
         = Ok [B; L2; Z.to_nat nhidden_units]).
Proof.
  split.
  - eexists. split; [|split].
    + now apply (@combined_table exp weight trained x a B L H).
    + apply rows_shape. intros b i Hb Hi. unfold combined_row.
      rewrite !length_app. unfold Val.map2.
      rewrite !length_map, !length_combine.
      rewrite (shape3_row_length _ _ Hx Hb Hi), (shape3_row_length _ _ Ha Hb Hi).
      lia.
    + intros b i Hb Hi. unfold row3 at 1. now rewrite !tab_nth.
  - rewrite new_ESIM_built in Hself. injection Hself as <-.
    exists (shape_of_locals nword_dims nhidden_units nclasses B L1 L2).
    exists (2 * Z.to_nat nhidden_units).
    split; [apply shape_locals|]. repeat split.
Qed.

Lemma composition_width_witness :
  Val.has_shape3 Sample.x1 1 3 2 = true
  /\ valid_config 100 8 16 32 3 0 = true
  /\ (exists c,
      (s <- _submul Sample.F (Val.T3 Sample.x1) (Val.T3 Sample.xc) ;;
       concat Sample.F [Val.T3 Sample.x1; Val.T3 Sample.xc; s] (-1))%result
      = Ok (Val.T3 c)
      /\ Val.has_shape3 c 1 3 (4 * 2) = true
      /\ forall b i, b < 1 -> i < 3 ->
           row3 c b i
           = row3 Sample.x1 b i ++ row3 Sample.xc b i
             ++ Val.map2 Qcmult (row3 Sample.x1 b i) (row3 Sample.xc b i)
             ++ Val.map2 Qcminus (row3 Sample.x1 b i) (row3 Sample.xc b i))
  /\ (exists s W,
      hybrid_forward_locals Shape.F (built 100 8 16 32 3 0) [1; 5] [1; 7] [1; 5] [1; 7]
      = Ok s
      /\ x1_lstm_encode s = [1; 5; W] /\ x1_algin s = [1; 5; W]
      /\ x1_combined s = [1; 5; 4 * W]
      /\ x2_lstm_encode s = [1; 7; W] /\ x2_algin s = [1; 7; W]
      /\ x2_combined s = [1; 7; 4 * W]
      /\ call_seq Shape.F (projection (built 100 8 16 32 3 0)) (x1_combined s)
         = Ok [1; 5; Z.to_nat 16]
      /\ call_seq Shape.F (projection (built 100 8 16 32 3 0)) (x2_combined s)
         = Ok [1; 7; Z.to_nat 16]).
Proof.
  split; [reflexivity|]. split; [reflexivity|].
  apply (@composition_width Sample.exp Sample.weight Sample.trained
           Sample.x1 Sample.xc 1 3 2 100 8 16 32 3 0 (built 100 8 16 32 3 0) 5 7);
    solve [reflexivity | lia].
Defined.

(** C1, as the specification states it, fails: the combined tensor of an
    encoding of width 2 has width 8, not 6. *)
Lemma composition_width_not_triple :
  ~ (forall (exp : Qc -> Qc) (weight : Block -> Val.mat)
            (trained : Block -> Val.tensor -> result Val.tensor)
            (x a : Val.cube) (B L H : nat),
        Val.has_shape3 x B L H = true -> Val.has_shape3 a B L H = true ->
        0 < B -> 0 < L ->
        exists c,
          (s <- _submul (Val.F exp weight trained) (Val.T3 x) (Val.T3 a) ;;
           concat (Val.F exp weight trained) [Val.T3 x; Val.T3 a; s] (-1))%result
          = Ok (Val.T3 c)
          /\ Val.has_shape3 c B L (3 * H) = true).
Proof.
  intros Hclaim.
  destruct (Hclaim Sample.exp Sample.weight Sample.trained Sample.x1 Sample.xc 1 3 2
              eq_refl eq_refl ltac:(lia) ltac:(lia)) as [c [Hc Hs]].
  rewrite (@combined_table Sample.exp Sample.weight Sample.trained
             Sample.x1 Sample.xc 1 3 2 eq_refl eq_refl ltac:(lia) ltac:(lia)) in Hc.
  injection Hc as <-. vm_compute in Hs. discriminate Hs.
Qed.

(** ** Token ids outside the table *)

Local Open Scope Z_scope.






(** * Further properties of the forward pass *)

Local Open Scope nat_scope.

(** ** Shapes of the locals and rejected shapes *)


(** The forward pass on shapes up to the alignment: when the alignment
    raises, the forward call raises the same error. *)
Lemma shape_forward_alignment_error (v d h nd nc : Z) (dr : Q) (B B' L1 L2 : nat)
    (mask1 mask2 : Shape.tensor) (e : error) :
  _soft_attention_align Shape.F [B; L1; 2 * Z.to_nat h] [B'; L2; 2 * Z.to_nat h]
                        mask1 mask2
  = Err e ->
  hybrid_forward Shape.F (built v d h nd nc dr) [B; L1] [B'; L2] mask1 mask2 = Err e.
Proof.
  intros Hal. unfold hybrid_forward, hybrid_forward_locals.
  set (D := Z.to_nat d). set (H := 2 * Z.to_nat h) in *.
  change (call Shape.F (embedding_encoder (built v d h nd nc dr)) [B; L1])
    with (Ok (A := Shape.tensor) [B; L1; D]).
  change (call Shape.F (embedding_encoder (built v d h nd nc dr)) [B'; L2])
    with (Ok (A := Shape.tensor) [B'; L2; D]).
  cbn [bind].
  change (call Shape.F (batch_norm (built v d h nd nc dr)) [B; L1; D])
    with (Ok (A := Shape.tensor) [B; L1; D]).
  change (call Shape.F (batch_norm (built v d h nd nc dr)) [B'; L2; D])
    with (Ok (A := Shape.tensor) [B'; L2; D]).
  cbn [bind].
  change (call Shape.F (lstm_encoder1 (built v d h nd nc dr)) [B; L1; D])
    with (Ok (A := Shape.tensor) [B; L1; H]).
  change (call Shape.F (lstm_encoder1 (built v d h nd nc dr)) [B'; L2; D])
    with (Ok (A := Shape.tensor) [B'; L2; H]).
  cbn [bind]. rewrite Hal. reflexivity.
Qed.






Lemma shape_attention_batch_mismatch (B B' L1 L2 H : nat)
    (mask1 mask2 : Shape.tensor) :
  B <> B' ->
  _soft_attention_align Shape.F [B; L1; H] [B'; L2; H] mask1 mask2
  = Err ShapeMismatch.
Proof.
  intros HB. apply Nat.eqb_neq in HB.
  unfold _soft_attention_align. cbn [batch_dot Shape.F].
  unfold Shape.batch_dot. now rewrite HB.
Qed.

Lemma shape_broadcast_mid_bad (b r c m : nat) :
  m <> c -> m <> 1 ->
  Shape.broadcast [b; r; c] [b; 1; m]
  = if c =? 1 then Ok [b; r; m] else Err ShapeMismatch.
Proof.
  intros Hm H1.
  assert (E1 : (c =? m) = false) by (apply Nat.eqb_neq; lia).
  assert (E2 : (m =? 1) = false) by now apply Nat.eqb_neq.
  unfold Shape.broadcast. simpl. rewrite !Nat.eqb_refl, E1, E2.
  destruct (r =? 1); simpl; destruct (c =? 1); reflexivity.
Qed.

Lemma shape_broadcast_last_bad (b r c m : nat) :
  m <> r -> m <> 1 ->
  Shape.broadcast [b; r; c] [b; m; 1]
  = if r =? 1 then Ok [b; m; c] else Err ShapeMismatch.
Proof.
  intros Hm H1.
  assert (E1 : (r =? m) = false) by (apply Nat.eqb_neq; lia).
  assert (E2 : (m =? 1) = false) by now apply Nat.eqb_neq.
  unfold Shape.broadcast. simpl. rewrite !Nat.eqb_refl, E1, E2.
  destruct (c =? 1); simpl; destruct (r =? 1); reflexivity.
Qed.

Lemma shape_attention_mask2_length (B L1 L2 H M : nat) (mask1 : Shape.tensor) :
  M <> L2 -> M <> 1 ->
  _soft_attention_align Shape.F [B; L1; H] [B; L2; H] mask1 [B; M]
  = Err ShapeMismatch.
Proof.
  intros HM H1.
  assert (E2 : (M =? 1) = false) by now apply Nat.eqb_neq.
  unfold _soft_attention_align.
  cbn [batch_dot expand_dims add softmax Shape.F].
  rewrite shape_batch_dot_nt. cbn [bind].
  change (Shape.expand_dims [B; M] 1) with (Ok (A := Shape.tensor) [B; 1; M]).
  cbn [bind]. rewrite shape_broadcast_mid_bad by assumption.
  destruct (L2 =? 1) eqn:E3; [|reflexivity]. cbn [bind].
  change (Shape.softmax [B; L1; M] (-1)) with (Ok (A := Shape.tensor) [B; L1; M]).
  cbn [bind]. unfold Shape.batch_dot at 1. rewrite Nat.eqb_refl.
  apply Nat.eqb_eq in E3. subst L2.
  assert (E4 : (M =? 1) = false) by exact E2. rewrite E4. reflexivity.
Qed.

Lemma shape_attention_mask1_length (B L1 L2 H M : nat) :
  M <> L1 -> M <> 1 ->
  _soft_attention_align Shape.F [B; L1; H] [B; L2; H] [B; M] [B; L2]
  = Err ShapeMismatch.
Proof.
  intros HM H1.
  assert (E2 : (M =? 1) = false) by now apply Nat.eqb_neq.
  unfold _soft_attention_align.
  cbn [batch_dot expand_dims add softmax Shape.F].
  rewrite shape_batch_dot_nt. cbn [bind].
  change (Shape.expand_dims [B; L2] 1) with (Ok (A := Shape.tensor) [B; 1; L2]).
  cbn [bind]. rewrite shape_broadcast_mid. cbn [bind].
  change (Shape.softmax [B; L1; L2] (-1)) with (Ok (A := Shape.tensor) [B; L1; L2]).
  cbn [bind]. rewrite shape_batch_dot_nn. cbn [bind].
  change (Shape.expand_dims [B; M] 2) with (Ok (A := Shape.tensor) [B; M; 1]).
  cbn [bind]. rewrite shape_broadcast_last_bad by assumption.
  destruct (L1 =? 1) eqn:E3; [|reflexivity]. cbn [bind].
  change (Shape.softmax [B; M; L2] 1) with (Ok (A := Shape.tensor) [B; M; L2]).
  cbn [bind]. unfold Shape.batch_dot. rewrite Nat.eqb_refl.
  apply Nat.eqb_eq in E3. subst L1. cbn [andb]. rewrite E2. reflexivity.
Qed.



(** X2. A premise and a hypothesis of different batch sizes are rejected:
    the forward call raises [ShapeMismatch] (from the batch product of the
    alignment), whatever the masks are. *)
Theorem batch_mismatch_rejected
    (vocab_size nword_dims nhidden_units ndense_units nclasses : Z) (dropout : Q)
    (self : ESIM) (B B' L1 L2 : nat) (mask1 mask2 : Shape.tensor)
    (Hself : new_ESIM vocab_size nword_dims nhidden_units ndense_units nclasses dropout
             = Ok self)
    (HB : B <> B') :
  hybrid_forward Shape.F self [B; L1] [B'; L2] mask1 mask2 = Err ShapeMismatch.
Proof.
  rewrite new_ESIM_built in Hself. injection Hself as <-.
  apply shape_forward_alignment_error.
  now apply shape_attention_batch_mismatch.
Qed.

Lemma batch_mismatch_rejected_witness :
  new_ESIM 100 8 16 32 3 0 = Ok (built 100 8 16 32 3 0)
  /\ 2 <> 3
  /\ hybrid_forward Shape.F (built 100 8 16 32 3 0) [2; 5] [3; 7] [2; 5] [3; 7]
     = Err ShapeMismatch.
Proof.
  split; [reflexivity|]. split; [lia|].
  apply (@batch_mismatch_rejected 100 8 16 32 3 0 (built 100 8 16 32 3 0)
           2 3 5 7 [2; 5] [3; 7]); [reflexivity | lia].
Defined.

(** X3. A hypothesis mask whose length is neither the length of the
    hypothesis nor 1 is rejected: the forward call raises [ShapeMismatch]. *)
Theorem mask2_length_rejected
    (vocab_size nword_dims nhidden_units ndense_units nclasses : Z) (dropout : Q)
    (self : ESIM) (B L1 L2 M : nat) (mask1 : Shape.tensor)
    (Hself : new_ESIM vocab_size nword_dims nhidden_units ndense_units nclasses dropout
             = Ok self)
    (HM : M <> L2) (H1 : M <> 1) :
  hybrid_forward Shape.F self [B; L1] [B; L2] mask1 [B; M] = Err ShapeMismatch.
Proof.
  rewrite new_ESIM_built in Hself. injection Hself as <-.
  apply shape_forward_alignment_error.
  now apply shape_attention_mask2_length.
Qed.

Lemma mask2_length_rejected_witness :
  new_ESIM 100 8 16 32 3 0 = Ok (built 100 8 16 32 3 0)
  /\ 6 <> 7 /\ 6 <> 1
  /\ hybrid_forward Shape.F (built 100 8 16 32 3 0) [2; 5] [2; 7] [2; 5] [2; 6]
     = Err ShapeMismatch.
Proof.
  split; [reflexivity|]. split; [lia|]. split; [lia|].
  apply (@mask2_length_rejected 100 8 16 32 3 0 (built 100 8 16 32 3 0)
           2 5 7 6 [2; 5]); [reflexivity | lia | lia].
Defined.

(** X4. A premise mask whose length is neither the length of the premise
    nor 1 is rejected: the forward call raises [ShapeMismatch]. *)
Theorem mask1_length_rejected
    (vocab_size nword_dims nhidden_units ndense_units nclasses : Z) (dropout : Q)
    (self : ESIM) (B L1 L2 M : nat)
    (Hself : new_ESIM vocab_size nword_dims nhidden_units ndense_units nclasses dropout
             = Ok self)
    (HM : M <> L1) (H1 : M <> 1) :
  hybrid_forward Shape.F self [B; L1] [B; L2] [B; M] [B; L2] = Err ShapeMismatch.
Proof.
  rewrite new_ESIM_built in Hself. injection Hself as <-.
  apply shape_forward_alignment_error.
  now apply shape_attention_mask1_length.
Qed.

Lemma mask1_length_rejected_witness :
  new_ESIM 100 8 16 32 3 0 = Ok (built 100 8 16 32 3 0)
  /\ 4 <> 5 /\ 4 <> 1
  /\ hybrid_forward Shape.F (built 100 8 16 32 3 0) [2; 5] [2; 7] [2; 4] [2; 7]
     = Err ShapeMismatch.
Proof.
  split; [reflexivity|]. split; [lia|]. split; [lia|].
  apply (@mask1_length_rejected 100 8 16 32 3 0 (built 100 8 16 32 3 0)
           2 5 7 4); [reflexivity | lia | lia].
Defined.



(** ** Sums of rationals *)

(** Order facts on canonical rationals, through the rationals they hold. *)
Ltac qc_to_q :=
  unfold Qclt, Qcle in *;
  cbn [this Qcplus Qcmult Qcinv Qcopp Qcminus Qcdiv Q2Qc] in *;
  repeat match goal with
         | H : context [Qred ?q] |- _ => rewrite (Qred_correct q) in H
         | |- context [Qred ?q] => rewrite (Qred_correct q)
         end.

Lemma Qc_pos_plus_nonneg (a b : Qc) : (0 < a -> 0 <= b -> 0 < a + b)%Qc.
Proof. intros. qc_to_q. lra. Qed.

Lemma Qc_le_plus (a b c d : Qc) : (a <= b -> c <= d -> a + c <= b + d)%Qc.
Proof. intros. qc_to_q. lra. Qed.

Lemma Qc_le_mult_nonneg (a b c : Qc) : (a <= b -> 0 <= c -> a * c <= b * c)%Qc.
Proof. intros. qc_to_q. nra. Qed.

Lemma Qc_inv_pos (a : Qc) : (0 < a -> 0 < / a)%Qc.
Proof. intros. qc_to_q. now apply Qinv_lt_0_compat. Qed.

Lemma big_sum_S (n : nat) (f : nat -> Qc) :
  big_sum (S n) f = Qcplus (f 0) (big_sum n (fun i => f (S i))).
Proof. unfold big_sum. now rewrite tab_S. Qed.

Lemma big_sum_0 (f : nat -> Qc) : big_sum 0 f = 0%Qc.
Proof. reflexivity. Qed.

Lemma big_sum_scale (n : nat) (f : nat -> Qc) (c : Qc) :
  big_sum n (fun j => Qcmult (f j) c) = Qcmult (big_sum n f) c.
Proof.
  revert f. induction n as [|n IH]; intros f.
  - rewrite !big_sum_0. ring.
  - rewrite !big_sum_S, IH. ring.
Qed.

Lemma big_sum_nonneg (n : nat) (f : nat -> Qc) :
  (forall j, j < n -> (0 <= f j)%Qc) -> (0 <= big_sum n f)%Qc.
Proof.
  revert f. induction n as [|n IH]; intros f Hf.
  - rewrite big_sum_0. apply Qcle_refl.
  - rewrite big_sum_S.
    replace 0%Qc with (0 + 0)%Qc by ring.
    apply Qc_le_plus; [apply Hf; lia|]. apply IH. intros j Hj. apply Hf. lia.
Qed.

Lemma big_sum_pos (n : nat) (f : nat -> Qc) :
  0 < n -> (forall j, j < n -> (0 < f j)%Qc) -> (0 < big_sum n f)%Qc.
Proof.
  intros Hn Hf. destruct n as [|n]; [lia|]. rewrite big_sum_S.
  apply Qc_pos_plus_nonneg; [apply Hf; lia|].
  apply big_sum_nonneg. intros j Hj. apply Qclt_le_weak, Hf. lia.
Qed.

Lemma big_sum_le (n : nat) (f g : nat -> Qc) :
  (forall j, j < n -> (f j <= g j)%Qc) -> (big_sum n f <= big_sum n g)%Qc.
Proof.
  revert f g. induction n as [|n IH]; intros f g Hfg.
  - rewrite !big_sum_0. apply Qcle_refl.
  - rewrite !big_sum_S. apply Qc_le_plus; [apply Hfg; lia|].
    apply IH. intros j Hj. apply Hfg. lia.
Qed.

(** A softmax sums to one when the exponential is positive. *)
Lemma normalised_sum (n : nat) (f : nat -> Qc) :
  0 < n -> (forall j, j < n -> (0 < f j)%Qc) ->
  big_sum n (fun j => Qcdiv (f j) (big_sum n f)) = 1%Qc.
Proof.
  intros Hn Hf. unfold Qcdiv. rewrite big_sum_scale.
  apply Qcmult_inv_r. intros E.
  pose proof (@big_sum_pos n f Hn Hf) as Hpos. rewrite E in Hpos.
  now apply Qclt_not_eq in Hpos.
Qed.

Lemma sample_exp_positive (x : Qc) : (0 < Sample.exp x)%Qc.
Proof.
  unfold Sample.exp, Sample.q. qc_to_q.
  assert (0 <= this x * this x)%Q by (destruct (Qlt_le_dec (this x) 0); nra).
  change (inject_Z 1) with 1%Q. lra.
Qed.

(** ** The alignment as a weighted average *)

Lemma weight1_row_sum (exp : Qc -> Qc) (x1 x2 : Val.cube) (mask2 : Val.mat)
    (L2 H b i : nat) :
  (forall x, (0 < exp x)%Qc) -> 0 < L2 ->
  big_sum L2 (fun j => AlignSpec.weight1 exp x1 x2 mask2 L2 H b i j) = 1%Qc.
Proof.
  intros Hexp HL2. unfold AlignSpec.weight1.
  apply (@normalised_sum L2
           (fun j => exp (Qcplus (AlignSpec.E x1 x2 H b i j) (entry2 mask2 b j))));
    auto.
Qed.

Lemma weight2_column_sum (exp : Qc -> Qc) (x1 x2 : Val.cube) (mask1 : Val.mat)
    (L1 H b j : nat) :
  (forall x, (0 < exp x)%Qc) -> 0 < L1 ->
  big_sum L1 (fun i => AlignSpec.weight2 exp x1 x2 mask1 L1 H b i j) = 1%Qc.
Proof.
  intros Hexp HL1. unfold AlignSpec.weight2.
  apply (@normalised_sum L1
           (fun i => exp (Qcplus (AlignSpec.E x1 x2 H b i j) (entry2 mask1 b i))));
    auto.
Qed.

(** X6. With a positive exponential, the attention weights are
    normalised: every row of [weight1] sums to one over the positions of
    the hypothesis, and every column of [weight2] sums to one over the
    positions of the premise, whatever the masks are. *)
Theorem attention_weights_sum_to_one
    (exp : Qc -> Qc) (weight : Block -> Val.mat)
    (trained : Block -> Val.tensor -> result Val.tensor)
    (x1 x2 : Val.cube) (mask1 mask2 : Val.mat) (B L1 L2 H : nat)
    (Hexp : forall x, (0 < exp x)%Qc)
    (Hx1 : Val.has_shape3 x1 B L1 H = true)
    (Hx2 : Val.has_shape3 x2 B L2 H = true)
    (Hm1 : Val.has_shape2 mask1 B L1 = true)
    (Hm2 : Val.has_shape2 mask2 B L2 = true)
    (HB : 0 < B) (HL1 : 0 < L1) (HL2 : 0 < L2) :
  exists w1 w2,
    weight1_of (Val.F exp weight trained) (Val.T3 x1) (Val.T3 x2) (Val.T2 mask2)
    = Ok (Val.T3 w1)
    /\ weight2_of (Val.F exp weight trained) (Val.T3 x1) (Val.T3 x2) (Val.T2 mask1)
       = Ok (Val.T3 w2)
    /\ (forall b i, b < B -> i < L1 ->
          big_sum L2 (fun j => entry3 w1 b i j) = 1%Qc)
    /\ (forall b j, b < B -> j < L2 ->
          big_sum L1 (fun i => entry3 w2 b i j) = 1%Qc).
Proof.
  do 2 eexists. split; [|split; [|split]].
  - now apply (@weight1_table exp weight trained x1 x2 mask2 B L1 L2 H).
  - now apply (@weight2_table exp weight trained x1 x2 mask1 B L1 L2 H).
  - intros b i Hb Hi.
    rewrite <- (@weight1_row_sum exp x1 x2 mask2 L2 H b i Hexp HL2).
    apply big_sum_ext. intros j Hj. now apply entry3_tab3.
  - intros b j Hb Hj.
    rewrite <- (@weight2_column_sum exp x1 x2 mask1 L1 H b j Hexp HL1).
    apply big_sum_ext. intros i Hi. now apply entry3_tab3.
Qed.

Lemma attention_weights_sum_to_one_witness :
  Val.has_shape3 Sample.x1 1 3 2 = true
  /\ Val.has_shape3 Sample.x2 1 2 2 = true
  /\ exists w1 w2,
    weight1_of Sample.F (Val.T3 Sample.x1) (Val.T3 Sample.x2) (Val.T2 Sample.mask2)
    = Ok (Val.T3 w1)
    /\ weight2_of Sample.F (Val.T3 Sample.x1) (Val.T3 Sample.x2) (Val.T2 Sample.mask1)
       = Ok (Val.T3 w2)
    /\ (forall b i, b < 1 -> i < 3 ->
          big_sum 2 (fun j => entry3 w1 b i j) = 1%Qc)
    /\ (forall b j, b < 1 -> j < 2 ->
          big_sum 3 (fun i => entry3 w2 b i j) = 1%Qc).
Proof.
  split; [reflexivity|]. split; [reflexivity|].
  apply (@attention_weights_sum_to_one Sample.exp Sample.weight Sample.trained
           Sample.x1 Sample.x2 Sample.mask1 Sample.mask2 1 3 2 2);
    solve [exact sample_exp_positive | reflexivity | lia].
Defined.

(** X7. With a positive exponential, when every position of the
    hypothesis of sentence [b] holds the same vector [row2 v b] (in
    particular when the hypothesis has length 1), every position of the
    premise is aligned to exactly that vector, whatever the masks and the
    premise are. *)
Theorem constant_hypothesis_alignment
    (exp : Qc -> Qc) (weight : Block -> Val.mat)
    (trained : Block -> Val.tensor -> result Val.tensor)
    (x1 x2 : Val.cube) (mask1 mask2 v : Val.mat) (B L1 L2 H : nat)
    (Hexp : forall x, (0 < exp x)%Qc)
    (Hx1 : Val.has_shape3 x1 B L1 H = true)
    (Hx2 : Val.has_shape3 x2 B L2 H = true)
    (Hm1 : Val.has_shape2 mask1 B L1 = true)
    (Hm2 : Val.has_shape2 mask2 B L2 = true)
    (HB : 0 < B) (HL1 : 0 < L1) (HL2 : 0 < L2)
    (Hconst : forall b j, b < B -> j < L2 -> row3 x2 b j = row2 v b) :
  exists a1 a2,
    _soft_attention_align (Val.F exp weight trained)
      (Val.T3 x1) (Val.T3 x2) (Val.T2 mask1) (Val.T2 mask2)
    = Ok (Val.T3 a1, a2)
    /\ forall b i, b < B -> i < L1 -> row3 a1 b i = row2 v b.
Proof.
  do 2 eexists. split.
  - now apply (@soft_attention_align_table exp weight trained
                 x1 x2 mask1 mask2 B L1 L2 H).
  - intros b i Hb Hi. unfold row3 at 1, tab3, tab2. rewrite !tab_nth by assumption.
    rewrite <- (Hconst b 0 Hb HL2).
    rewrite (tab_of_list Val.zero (row3 x2 b 0)).
    rewrite (shape3_row_length _ _ Hx2 Hb HL2).
    apply tab_ext. intros k Hk. unfold AlignSpec.X1_aligned.
    rewrite (@big_sum_ext L2 _
               (fun j => Qcmult (AlignSpec.weight1 exp x1 x2 mask2 L2 H b i j)
                                (nth k (row3 x2 b 0) Val.zero))).
    + rewrite big_sum_scale, weight1_row_sum by assumption. ring.
    + intros j Hj. unfold entry3.
      now rewrite (Hconst b j Hb Hj), (Hconst b 0 Hb HL2).
Qed.

Lemma constant_hypothesis_alignment_witness :
  Val.has_shape3 Sample.x1 1 3 2 = true
  /\ Val.has_shape3 Sample.xc 1 3 2 = true
  /\ exists a1 a2,
    _soft_attention_align Sample.F
      (Val.T3 Sample.x1) (Val.T3 Sample.xc) (Val.T2 Sample.mask1) (Val.T2 Sample.mask1')
    = Ok (Val.T3 a1, a2)
    /\ forall b i, b < 1 -> i < 3 -> row3 a1 b i = row2 [[Sample.q 3; Sample.q 5]] b.
Proof.
  split; [reflexivity|]. split; [reflexivity|].
  apply (@constant_hypothesis_alignment Sample.exp Sample.weight Sample.trained
           Sample.x1 Sample.xc Sample.mask1 Sample.mask1' [[Sample.q 3; Sample.q 5]]
           1 3 3 2);
    try solve [exact sample_exp_positive | reflexivity | lia].
  intros b j Hb Hj.
  destruct b as [|b]; [|lia].
  destruct j as [|[|[|j]]]; solve [reflexivity | lia].
Defined.

(** ** Exchanging the two sentences *)

Lemma E_swap (x1 x2 : Val.cube) (H b i j : nat) :
  AlignSpec.E x2 x1 H b j i = AlignSpec.E x1 x2 H b i j.
Proof.
  unfold AlignSpec.E. apply big_sum_ext. intros k _. apply Qcmult_comm.
Qed.

Lemma X1_aligned_swap (exp : Qc -> Qc) (x1 x2 : Val.cube) (mask1 : Val.mat)
    (L1 H b j k : nat) :
  AlignSpec.X1_aligned exp x2 x1 mask1 L1 H b j k
  = AlignSpec.X2_aligned exp x1 x2 mask1 L1 H b j k.
Proof.
  unfold AlignSpec.X1_aligned, AlignSpec.X2_aligned.
  apply big_sum_ext. intros i _. f_equal.
  unfold AlignSpec.weight1, AlignSpec.weight2. rewrite E_swap. f_equal.
  apply big_sum_ext. intros i' _. now rewrite E_swap.
Qed.

Lemma X2_aligned_swap (exp : Qc -> Qc) (x1 x2 : Val.cube) (mask2 : Val.mat)
    (L2 H b i k : nat) :
  AlignSpec.X2_aligned exp x2 x1 mask2 L2 H b i k
  = AlignSpec.X1_aligned exp x1 x2 mask2 L2 H b i k.
Proof.
  unfold AlignSpec.X1_aligned, AlignSpec.X2_aligned.
  apply big_sum_ext. intros j _. f_equal.
  unfold AlignSpec.weight1, AlignSpec.weight2. rewrite E_swap. f_equal.
  apply big_sum_ext. intros j' _. now rewrite E_swap.
Qed.

(** X8. The alignment treats the two sentences alike: calling
    [_soft_attention_align] with the premise and the hypothesis exchanged,
    and their masks exchanged, returns the same two tensors in the other
    order. *)
Theorem soft_attention_align_swap
    (exp : Qc -> Qc) (weight : Block -> Val.mat)
    (trained : Block -> Val.tensor -> result Val.tensor)
    (x1 x2 : Val.cube) (mask1 mask2 : Val.mat) (B L1 L2 H : nat)
    (Hx1 : Val.has_shape3 x1 B L1 H = true)
    (Hx2 : Val.has_shape3 x2 B L2 H = true)
    (Hm1 : Val.has_shape2 mask1 B L1 = true)
    (Hm2 : Val.has_shape2 mask2 B L2 = true)
    (HB : 0 < B) (HL1 : 0 < L1) (HL2 : 0 < L2) :
  exists a1 a2,
    _soft_attention_align (Val.F exp weight trained)
      (Val.T3 x1) (Val.T3 x2) (Val.T2 mask1) (Val.T2 mask2)
    = Ok (a1, a2)
    /\ _soft_attention_align (Val.F exp weight trained)
         (Val.T3 x2) (Val.T3 x1) (Val.T2 mask2) (Val.T2 mask1)
       = Ok (a2, a1).
Proof.
  do 2 eexists. split.
  - now apply (@soft_attention_align_table exp weight trained
                 x1 x2 mask1 mask2 B L1 L2 H).
  - rewrite (@soft_attention_align_table exp weight trained
               x2 x1 mask2 mask1 B L2 L1 H) by assumption.
    do 2 f_equal; f_equal; apply tab3_ext; intros b i k _ _ _.
    + apply X1_aligned_swap.
    + apply X2_aligned_swap.
Qed.

Lemma soft_attention_align_swap_witness :
  Val.has_shape3 Sample.x1 1 3 2 = true
  /\ Val.has_shape3 Sample.x2 1 2 2 = true
  /\ exists a1 a2,
    _soft_attention_align Sample.F
      (Val.T3 Sample.x1) (Val.T3 Sample.x2) (Val.T2 Sample.mask1) (Val.T2 Sample.mask2)
    = Ok (a1, a2)
    /\ _soft_attention_align Sample.F
         (Val.T3 Sample.x2) (Val.T3 Sample.x1) (Val.T2 Sample.mask2) (Val.T2 Sample.mask1)
       = Ok (a2, a1).
Proof.
  split; [reflexivity|]. split; [reflexivity|].
  apply (@soft_attention_align_swap Sample.exp Sample.weight Sample.trained
           Sample.x1 Sample.x2 Sample.mask1 Sample.mask2 1 3 2 2);
    solve [reflexivity | lia].
Defined.

(** ** The pooled maximum and the pooled average *)

Lemma Qcmax_cases (a b : Qc) : Val.Qcmax a b = a \/ Val.Qcmax a b = b.
Proof. unfold Val.Qcmax. destruct (Qccompare a b); auto. Qed.

Lemma Qcmax_le_l (a b : Qc) : (a <= Val.Qcmax a b)%Qc.
Proof.
  unfold Val.Qcmax. destruct (Qccompare a b) eqn:E; try apply Qcle_refl.
  apply Qclt_le_weak. now apply Qclt_alt.
Qed.

Lemma Qcmax_le_r (a b : Qc) : (b <= Val.Qcmax a b)%Qc.
Proof.
  unfold Val.Qcmax. destruct (Qccompare a b) eqn:E.
  - apply Qceq_alt in E. subst. apply Qcle_refl.
  - apply Qcle_refl.
  - apply Qclt_le_weak. now apply Qcgt_alt.
Qed.

Lemma fold_max_spec (l : list Qc) (a : Qc) :
  (a <= fold_left Val.Qcmax l a)%Qc
  /\ (forall x, In x l -> (x <= fold_left Val.Qcmax l a)%Qc)
  /\ (fold_left Val.Qcmax l a = a \/ In (fold_left Val.Qcmax l a) l).
Proof.
  revert a. induction l as [|y l IH]; intros a; cbn [fold_left].
  - repeat split; auto using Qcle_refl. intros x [].
  - destruct (IH (Val.Qcmax a y)) as (H1 & H2 & H3). repeat split.
    + eapply Qcle_trans; [apply Qcmax_le_l|exact H1].
    + intros x [<-|Hx]; [|now apply H2].
      eapply Qcle_trans; [apply Qcmax_le_r|exact H1].
    + destruct H3 as [H3|H3]; [|right; now right].
      rewrite H3. destruct (Qcmax_cases a y) as [E|E]; rewrite E; auto.
      right. now left.
Qed.

Lemma vmax_spec (l : list Qc) :
  l <> [] ->
  (forall x, In x l -> (x <= Val.vmax l)%Qc) /\ In (Val.vmax l) l.
Proof.
  destruct l as [|a l]; [congruence|]. intros _. cbn [Val.vmax].
  destruct (fold_max_spec l a) as (H1 & H2 & H3). split.
  - intros x [<-|Hx]; auto.
  - destruct H3 as [->|H3]; [now left|now right].
Qed.

Lemma time_max_spec (x : Val.cube) (L b c : nat) :
  0 < L ->
  (forall t, t < L -> (entry3 x b t c <= time_max x L b c)%Qc)
  /\ exists t, t < L /\ time_max x L b c = entry3 x b t c.
Proof.
  intros HL. unfold time_max.
  assert (Hne : tab L (fun t => entry3 x b t c) <> []).
  { intros E. apply (f_equal (@length Qc)) in E. rewrite tab_length in E.
    simpl in E. lia. }
  destruct (vmax_spec Hne) as [Hub Hin]. split.
  - intros t Ht. apply Hub. unfold tab. apply in_map_iff. exists t.
    split; [reflexivity|]. apply in_seq. lia.
  - unfold tab in Hin at 2. apply in_map_iff in Hin.
    destruct Hin as [t [Ht Hin]]. apply in_seq in Hin.
    exists t. split; [lia|]. now rewrite Ht.
Qed.

Lemma of_nat_pos (n : nat) : 0 < n -> (0 < Val.of_nat n)%Qc.
Proof.
  intros Hn. unfold Val.of_nat. qc_to_q.
  unfold Qlt. simpl. lia.
Qed.

Lemma time_avg_le_max (x : Val.cube) (L b c : nat) :
  0 < L -> (time_avg x L b c <= time_max x L b c)%Qc.
Proof.
  intros HL. destruct (@time_max_spec x L b c HL) as [Hub _].
  rewrite <- (@avg_const L (time_max x L b c) HL) at 1.
  unfold time_avg, Qcdiv. apply Qc_le_mult_nonneg.
  - now apply big_sum_le.
  - apply Qclt_le_weak, Qc_inv_pos. now apply of_nat_pos.
Qed.

Lemma aggregate_entries (C : nat) (f g : nat -> Qc) (c : nat) :
  c < C ->
  nth c (tab C f ++ tab C g) Val.zero = f c
  /\ nth (C + c) (tab C f ++ tab C g) Val.zero = g c.
Proof.
  intros Hc. split.
  - rewrite app_nth1 by now rewrite tab_length. now apply tab_nth.
  - rewrite <- (tab_length C f) at 1. rewrite app_nth2_plus. now apply tab_nth.
Qed.

(** X9. In the aggregate of a representation of shape [(B, L, C)], entry
    [C + c] of sentence [b] (the max-pooled half) is at least the value of
    channel [c] at every one of the [L] time steps, and is the value at one
    of them. *)
Theorem max_pool_is_maximum
    (exp : Qc -> Qc) (weight : Block -> Val.mat)
    (trained : Block -> Val.tensor -> result Val.tensor)
    (vocab_size nword_dims nhidden_units ndense_units nclasses : Z) (dropout : Q)
    (self : ESIM) (x : Val.cube) (B L C : nat)
    (Hself : new_ESIM vocab_size nword_dims nhidden_units ndense_units nclasses dropout
             = Ok self)
    (Hx : Val.has_shape3 x B L C = true)
    (HB : 0 < B) (HL : 0 < L) (HC : 0 < C) :
  exists agg,
    (xt <- transpose (Val.F exp weight trained) (Val.T3 x) [0; 2; 1] ;;
     _pooling (Val.F exp weight trained) self xt)%result
    = Ok (Val.T2 agg)
    /\ forall b c, b < B -> c < C ->
         (forall t, t < L -> (entry3 x b t c <= entry2 agg b (C + c))%Qc)
         /\ exists t, t < L /\ entry2 agg b (C + c) = entry3 x b t c.
Proof.
  rewrite new_ESIM_built in Hself. injection Hself as <-.
  eexists. split.
  - now apply (@aggregate_table exp weight trained _ x B L C).
  - intros b c Hb Hc. unfold entry2, row2. rewrite tab_nth by assumption.
    destruct (@aggregate_entries C (time_avg x L b) (time_max x L b) c Hc) as [_ E].
    rewrite E. now apply time_max_spec.
Qed.

Lemma max_pool_is_maximum_witness :
  new_ESIM 4 2 1 1 1 0 = Ok Sample.model
  /\ Val.has_shape3 Sample.x1 1 3 2 = true
  /\ exists agg,
    (xt <- transpose Sample.F (Val.T3 Sample.x1) [0; 2; 1] ;;
     _pooling Sample.F Sample.model xt)%result
    = Ok (Val.T2 agg)
    /\ forall b c, b < 1 -> c < 2 ->
         (forall t, t < 3 -> (entry3 Sample.x1 b t c <= entry2 agg b (2 + c))%Qc)
         /\ exists t, t < 3 /\ entry2 agg b (2 + c) = entry3 Sample.x1 b t c.
Proof.
  split; [reflexivity|]. split; [reflexivity|].
  apply (@max_pool_is_maximum Sample.exp Sample.weight Sample.trained
           4 2 1 1 1 0 Sample.model Sample.x1 1 3 2);
    solve [reflexivity | lia].
Defined.

(** X10. In the aggregate of a representation of shape [(B, L, C)], the
    average-pooled entry of a channel is never greater than its max-pooled
    entry. *)
Theorem avg_pool_le_max_pool
    (exp : Qc -> Qc) (weight : Block -> Val.mat)
    (trained : Block -> Val.tensor -> result Val.tensor)
    (vocab_size nword_dims nhidden_units ndense_units nclasses : Z) (dropout : Q)
    (self : ESIM) (x : Val.cube) (B L C : nat)
    (Hself : new_ESIM vocab_size nword_dims nhidden_units ndense_units nclasses dropout
             = Ok self)
    (Hx : Val.has_shape3 x B L C = true)
    (HB : 0 < B) (HL : 0 < L) (HC : 0 < C) :
  exists agg,
    (xt <- transpose (Val.F exp weight trained) (Val.T3 x) [0; 2; 1] ;;
     _pooling (Val.F exp weight trained) self xt)%result
    = Ok (Val.T2 agg)
    /\ forall b c, b < B -> c < C ->
         (entry2 agg b c <= entry2 agg b (C + c))%Qc.
Proof.
  rewrite new_ESIM_built in Hself. injection Hself as <-.
  eexists. split.
  - now apply (@aggregate_table exp weight trained _ x B L C).
  - intros b c Hb Hc. unfold entry2, row2. rewrite tab_nth by assumption.
    destruct (@aggregate_entries C (time_avg x L b) (time_max x L b) c Hc) as [E1 E2].
    rewrite E1, E2. now apply time_avg_le_max.
Qed.

Lemma avg_pool_le_max_pool_witness :
  new_ESIM 4 2 1 1 1 0 = Ok Sample.model
  /\ Val.has_shape3 Sample.x1 1 3 2 = true
  /\ exists agg,
    (xt <- transpose Sample.F (Val.T3 Sample.x1) [0; 2; 1] ;;
     _pooling Sample.F Sample.model xt)%result
    = Ok (Val.T2 agg)
    /\ forall b c, b < 1 -> c < 2 ->
         (entry2 agg b c <= entry2 agg b (2 + c))%Qc.
Proof.
  split; [reflexivity|]. split; [reflexivity|].
  apply (@avg_pool_le_max_pool Sample.exp Sample.weight Sample.trained
           4 2 1 1 1 0 Sample.model Sample.x1 1 3 2);
    solve [reflexivity | lia].
Defined.

(** ** The order of the time steps *)

Lemma vsum_perm (l l' : list Qc) : Permutation l l' -> Val.vsum l = Val.vsum l'.
Proof.
  induction 1 as [|a l l' _ IH|a b l|l l' l'' _ IH1 _ IH2]; cbn [Val.vsum fold_right].
  - reflexivity.
  - fold (Val.vsum l) (Val.vsum l'). now rewrite IH.
  - fold (Val.vsum l). ring.
  - congruence.
Qed.

Lemma vmax_perm (l l' : list Qc) : Permutation l l' -> Val.vmax l = Val.vmax l'.
Proof.
  intros HP. destruct l as [|a l].
  - apply Permutation_nil in HP. now subst.
  - assert (Hl : a :: l <> []) by discriminate.
    assert (Hl' : l' <> []).
    { intros ->. apply Permutation_sym, Permutation_nil in HP. discriminate. }
    destruct (vmax_spec Hl) as [U1 I1]. destruct (vmax_spec Hl') as [U2 I2].
    apply Qcle_antisym.
    + apply U2. now apply (Permutation_in _ HP).
    + apply U1. now apply (Permutation_in _ (Permutation_sym HP)).
Qed.

Lemma channel_column (x : Val.cube) (L b c : nat) :
  length (nth b x []) = L ->
  tab L (fun t => entry3 x b t c)
  = map (fun row => nth c row Val.zero) (nth b x []).
Proof.
  intros Hlen. rewrite (tab_of_list [] (nth b x [])) at 1.
  rewrite Hlen, tab_map. reflexivity.
Qed.

Lemma sentence_length (x : Val.cube) (B L C b : nat) :
  Val.has_shape3 x B L C = true -> b < B -> length (nth b x []) = L.
Proof.
  intros Hx Hb. apply has_shape3_spec in Hx. destruct Hx as [Hlen Hm].
  assert (Hs : Val.has_shape2 (nth b x []) L C = true)
    by (apply Hm, nth_In; lia).
  now apply has_shape2_spec in Hs.
Qed.

(** X11. The aggregate does not depend on the order of the time steps:
    two representations of shape [(B, L, C)] whose sentences hold the same
    time steps in any two orders have the same aggregate. *)
Theorem pooling_order_invariant
    (exp : Qc -> Qc) (weight : Block -> Val.mat)
    (trained : Block -> Val.tensor -> result Val.tensor)
    (vocab_size nword_dims nhidden_units ndense_units nclasses : Z) (dropout : Q)
    (self : ESIM) (x x' : Val.cube) (B L C : nat)
    (Hself : new_ESIM vocab_size nword_dims nhidden_units ndense_units nclasses dropout
             = Ok self)
    (Hx : Val.has_shape3 x B L C = true)
    (Hx' : Val.has_shape3 x' B L C = true)
    (HB : 0 < B) (HL : 0 < L) (HC : 0 < C)
    (Hperm : forall b, b < B -> Permutation (nth b x []) (nth b x' [])) :
  exists agg,
    (xt <- transpose (Val.F exp weight trained) (Val.T3 x) [0; 2; 1] ;;
     _pooling (Val.F exp weight trained) self xt)%result
    = Ok (Val.T2 agg)
    /\ (xt <- transpose (Val.F exp weight trained) (Val.T3 x') [0; 2; 1] ;;
        _pooling (Val.F exp weight trained) self xt)%result
       = Ok (Val.T2 agg).
Proof.
  rewrite new_ESIM_built in Hself. injection Hself as <-.
  eexists. split.
  - now apply (@aggregate_table exp weight trained _ x B L C).
  - rewrite (@aggregate_table exp weight trained _ x' B L C) by auto.
    do 2 f_equal. apply tab_ext. intros b Hb.
    assert (Hcol : forall c, Permutation (tab L (fun t => entry3 x' b t c))
                                         (tab L (fun t => entry3 x b t c))).
    { intros c.
      rewrite (@channel_column x L b c) by now apply sentence_length with B C.
      rewrite (@channel_column x' L b c) by now apply sentence_length with B C.
      apply Permutation_map, Permutation_sym. now apply Hperm. }
    f_equal; apply tab_ext; intros c Hc.
    + unfold time_avg, big_sum. f_equal. now apply vsum_perm.
    + unfold time_max. now apply vmax_perm.
Qed.

Lemma pooling_order_invariant_witness :
  new_ESIM 4 2 1 1 1 0 = Ok Sample.model
  /\ Val.has_shape3 Sample.x1 1 3 2 = true
  /\ Val.has_shape3 (map (@rev (list Qc)) Sample.x1) 1 3 2 = true
  /\ exists agg,
    (xt <- transpose Sample.F (Val.T3 Sample.x1) [0; 2; 1] ;;
     _pooling Sample.F Sample.model xt)%result
    = Ok (Val.T2 agg)
    /\ (xt <- transpose Sample.F (Val.T3 (map (@rev (list Qc)) Sample.x1)) [0; 2; 1] ;;
        _pooling Sample.F Sample.model xt)%result
       = Ok (Val.T2 agg).
Proof.
  split; [reflexivity|]. split; [reflexivity|]. split; [reflexivity|].
  apply (@pooling_order_invariant Sample.exp Sample.weight Sample.trained
           4 2 1 1 1 0 Sample.model Sample.x1 (map (@rev (list Qc)) Sample.x1) 1 3 2);
    try solve [reflexivity | lia].
  intros b Hb. change (@nil (list Qc)) with (rev (@nil (list Qc))) at 2.
  rewrite map_nth. apply Permutation_rev.
Defined.

(** ** Sentence pairs of a batch *)

Lemma entry3_of_sentence (x x' : Val.cube) (b i k : nat) :
  nth b x [] = nth b x' [] -> entry3 x b i k = entry3 x' b i k.
Proof. intros E. unfold entry3, row3. now rewrite E. Qed.

Lemma entry2_of_sentence (m m' : Val.mat) (b j : nat) :
  nth b m [] = nth b m' [] -> entry2 m b j = entry2 m' b j.
Proof. intros E. unfold entry2, row2. now rewrite E. Qed.

Lemma E_of_sentence (x1 x2 y1 y2 : Val.cube) (H b i j : nat) :
  nth b x1 [] = nth b y1 [] -> nth b x2 [] = nth b y2 [] ->
  AlignSpec.E x1 x2 H b i j = AlignSpec.E y1 y2 H b i j.
Proof.
  intros E1 E2. unfold AlignSpec.E. apply big_sum_ext. intros k _.
  now rewrite (@entry3_of_sentence x1 y1 b i k E1), (@entry3_of_sentence x2 y2 b j k E2).
Qed.

(** X12. The alignment never mixes the sentence pairs of a batch: when
    two batches hold the same premise, hypothesis and masks at position [b],
    their alignments are equal at position [b], whatever the other
    positions hold. *)
Theorem alignment_per_sentence_pair
    (exp : Qc -> Qc) (weight : Block -> Val.mat)
    (trained : Block -> Val.tensor -> result Val.tensor)
    (x1 x2 y1 y2 : Val.cube) (mask1 mask2 nask1 nask2 : Val.mat)
    (B L1 L2 H b : nat)
    (Hx1 : Val.has_shape3 x1 B L1 H = true)
    (Hx2 : Val.has_shape3 x2 B L2 H = true)
    (Hm1 : Val.has_shape2 mask1 B L1 = true)
    (Hm2 : Val.has_shape2 mask2 B L2 = true)
    (Hy1 : Val.has_shape3 y1 B L1 H = true)
    (Hy2 : Val.has_shape3 y2 B L2 H = true)
    (Hn1 : Val.has_shape2 nask1 B L1 = true)
    (Hn2 : Val.has_shape2 nask2 B L2 = true)
    (HB : 0 < B) (HL1 : 0 < L1) (HL2 : 0 < L2) (Hb : b < B)
    (E1 : nth b x1 [] = nth b y1 []) (E2 : nth b x2 [] = nth b y2 [])
    (M1 : nth b mask1 [] = nth b nask1 []) (M2 : nth b mask2 [] = nth b nask2 []) :
  exists a1 a2 c1 c2,
    _soft_attention_align (Val.F exp weight trained)
      (Val.T3 x1) (Val.T3 x2) (Val.T2 mask1) (Val.T2 mask2)
    = Ok (Val.T3 a1, Val.T3 a2)
    /\ _soft_attention_align (Val.F exp weight trained)
         (Val.T3 y1) (Val.T3 y2) (Val.T2 nask1) (Val.T2 nask2)
       = Ok (Val.T3 c1, Val.T3 c2)
    /\ nth b a1 [] = nth b c1 [] /\ nth b a2 [] = nth b c2 [].
Proof.
  do 4 eexists. split; [|split].
  - now apply (@soft_attention_align_table exp weight trained
                 x1 x2 mask1 mask2 B L1 L2 H).
  - now apply (@soft_attention_align_table exp weight trained
                 y1 y2 nask1 nask2 B L1 L2 H).
  - unfold tab3. rewrite !tab_nth by assumption. split.
    + apply tab2_ext. intros i k _ _. unfold AlignSpec.X1_aligned.
      apply big_sum_ext. intros j _.
      rewrite (@entry3_of_sentence x2 y2 b _ _ E2). f_equal.
      unfold AlignSpec.weight1.
      rewrite (@E_of_sentence x1 x2 y1 y2 H b _ _ E1 E2), (@entry2_of_sentence mask2 nask2 b _ M2).
      f_equal. apply big_sum_ext. intros j' _.
      now rewrite (@E_of_sentence x1 x2 y1 y2 H b _ _ E1 E2), (@entry2_of_sentence mask2 nask2 b _ M2).
    + apply tab2_ext. intros j k _ _. unfold AlignSpec.X2_aligned.
      apply big_sum_ext. intros i _.
      rewrite (@entry3_of_sentence x1 y1 b _ _ E1). f_equal.
      unfold AlignSpec.weight2.
      rewrite (@E_of_sentence x1 x2 y1 y2 H b _ _ E1 E2), (@entry2_of_sentence mask1 nask1 b _ M1).
      f_equal. apply big_sum_ext. intros i' _.
      now rewrite (@E_of_sentence x1 x2 y1 y2 H b _ _ E1 E2), (@entry2_of_sentence mask1 nask1 b _ M1).
Qed.

Lemma alignment_per_sentence_pair_witness :
  Val.has_shape3 (Sample.x1 ++ Sample.x1) 2 3 2 = true
  /\ Val.has_shape3 (Sample.x1 ++ Sample.xc) 2 3 2 = true
  /\ nth 0 (Sample.x1 ++ Sample.x1) [] = nth 0 (Sample.x1 ++ Sample.xc) []
  /\ exists a1 a2 c1 c2,
    _soft_attention_align Sample.F
      (Val.T3 (Sample.x1 ++ Sample.x1)) (Val.T3 (Sample.x2 ++ Sample.x2))
      (Val.T2 (Sample.mask1 ++ Sample.mask1)) (Val.T2 (Sample.mask2 ++ Sample.mask2))
    = Ok (Val.T3 a1, Val.T3 a2)
    /\ _soft_attention_align Sample.F
         (Val.T3 (Sample.x1 ++ Sample.xc)) (Val.T3 (Sample.x2 ++ Sample.x2))
         (Val.T2 (Sample.mask1 ++ Sample.mask1')) (Val.T2 (Sample.mask2 ++ Sample.mask2))
       = Ok (Val.T3 c1, Val.T3 c2)
    /\ nth 0 a1 [] = nth 0 c1 [] /\ nth 0 a2 [] = nth 0 c2 [].
Proof.
  split; [reflexivity|]. split; [reflexivity|]. split; [reflexivity|].
  apply (@alignment_per_sentence_pair Sample.exp Sample.weight Sample.trained
           (Sample.x1 ++ Sample.x1) (Sample.x2 ++ Sample.x2)
           (Sample.x1 ++ Sample.xc) (Sample.x2 ++ Sample.x2)
           (Sample.mask1 ++ Sample.mask1) (Sample.mask2 ++ Sample.mask2)
           (Sample.mask1 ++ Sample.mask1') (Sample.mask2 ++ Sample.mask2)
           2 3 2 2 0);
    solve [reflexivity | lia].
Defined.

(** ** The objects of a model *)

(** X13. The constructor shares no layer between the parts of the model:
    the sixteen layers and the two containers it builds are eighteen
    different objects, so the normalisation layers of the embedding, of the
    projection block and of the classifier (and likewise the dropout and
    dense layers) each have parameters of their own. *)
Theorem init_objects_distinct
    (vocab_size nword_dims nhidden_units ndense_units nclasses : Z) (dropout : Q)
    (self : ESIM)
    (Hself : new_ESIM vocab_size nword_dims nhidden_units ndense_units nclasses dropout
             = Ok self) :
  length (children (projection self)) = 3
  /\ length (children (fc_encoder self)) = 7
  /\ NoDup (map uid ([embedding_encoder self; batch_norm self; lstm_encoder1 self]
                     ++ children (projection self)
                     ++ [lstm_encoder2 self]
                     ++ children (fc_encoder self)
                     ++ [avg_pool self; max_pool self])
            ++ [seq_uid (projection self); seq_uid (fc_encoder self)]).
Proof.
  rewrite new_ESIM_built in Hself. injection Hself as <-.
  split; [reflexivity|]. split; [reflexivity|].
  cbn. repeat constructor; cbn; intuition congruence.
Qed.

Lemma init_objects_distinct_witness :
  new_ESIM 100 8 16 32 3 0 = Ok (built 100 8 16 32 3 0)
  /\ length (children (projection (built 100 8 16 32 3 0))) = 3
  /\ length (children (fc_encoder (built 100 8 16 32 3 0))) = 7
  /\ NoDup (map uid ([embedding_encoder (built 100 8 16 32 3 0);
                      batch_norm (built 100 8 16 32 3 0);
                      lstm_encoder1 (built 100 8 16 32 3 0)]
                     ++ children (projection (built 100 8 16 32 3 0))
                     ++ [lstm_encoder2 (built 100 8 16 32 3 0)]
                     ++ children (fc_encoder (built 100 8 16 32 3 0))
                     ++ [avg_pool (built 100 8 16 32 3 0);
                         max_pool (built 100 8 16 32 3 0)])
            ++ [seq_uid (projection (built 100 8 16 32 3 0));
                seq_uid (fc_encoder (built 100 8 16 32 3 0))]).
Proof.
  split; [reflexivity|].
  apply (@init_objects_distinct 100 8 16 32 3 0 (built 100 8 16 32 3 0)).
  reflexivity.
Defined.

(** ** One table for both sentences *)




(** ** Weights of padded positions *)






